(** * Lama bytecode interpreter: shallow embedding and verified properties

    The development follows the C++ sources [Utils.hpp], [Opcodes.hpp],
    [Interpreter.hpp], [Interpreter.cpp] and [Main.cpp].

    The interpreter is a 32-bit program: it [std::bit_cast]s pointers and
    [usize] words to [u32]/[i32] (which only compiles when both are four
    bytes wide), so [usize], [u32] and pointers are 32-bit quantities and
    [i32] is a two's complement 32-bit integer.  Integers are modelled as
    [Z] with every wrap-around written out.

    Memory is flat.  The value stack, the heap objects of the runtime and
    everything around them live in a word memory keyed by byte address;
    the bytefile buffer lives in a byte memory.  A pointer is its address,
    [p + k] on a [usize*] is [p + 4 * k], and an access outside an array is
    an access to whatever cell lies there: the model never hides such an
    access, so that bounds properties can be stated about addresses.

    What the model keeps apart from the word memory.  The fields of
    [Stack] and [Interpreter] are registers of the state.  In the program
    they are words next to the array: [bp], [nArgs] and [nLocals] lie
    before it and [isClosure] before them, [begin] and [globalsSize] lie
    after it.  A store that leaves the array can therefore change a
    field of the program and never changes a register of the model.  The
    two agree as long as the stores of the interpreter land in the array
    or in an object of the heap, and a property that reads a register
    after a store has a hypothesis that says so ([in_array],
    [frame_fits], [around_top_in_array]).  In the same way the bytefile
    buffer is a memory of its own, which no store of the interpreter
    reaches; sums of a pointer and an offset do not wrap; and the two
    [assert]s of [Bytefile] are not part of the model, which is the
    program built without assertions. *)

From Stdlib Require Import ZArith List Lia Bool String.
Import ListNotations.
Local Open Scope Z_scope.

(** ** Fixed-width integers ([Types.hpp] is a list of aliases) *)

Module Int.

Definition to_u8 (x : Z) : Z := x mod 2 ^ 8.
Definition to_u32 (x : Z) : Z := x mod 2 ^ 32.
Definition to_usize (x : Z) : Z := x mod 2 ^ 32.
Definition to_i32 (x : Z) : Z := (x + 2 ^ 31) mod 2 ^ 32 - 2 ^ 31.

Definition u32_max : Z := 2 ^ 32 - 1.

(** [sizeof(usize)], [sizeof(i32)], [sizeof(u32)]. *)
Definition word_size : Z := 4.

(** [satAdd] of [Utils.hpp]. *)
Definition satAdd (lhs rhs : Z) : Z :=
  let res := to_u32 (lhs + rhs) in
  if res <? lhs then u32_max else res.

(** Modelled from the spec: the macro [BOX] of the runtime header
    [runtime_common.h], which is not part of the sources at hand:
    [BOX(n) = (n << 1) | 1] on a C [int]. *)
Definition BOX (x : Z) : Z := to_i32 (Z.lor (Z.shiftl (to_i32 x) 1) 1).

(** Modelled from the spec: the macro [UNBOX] of the runtime header
    [runtime_common.h], which is not part of the sources at hand:
    [UNBOX(w) = w >> 1], an arithmetic shift of the word read as a C
    [int]. *)
Definition UNBOX (x : Z) : Z := Z.shiftr (to_i32 x) 1.

End Int.
Import Int.

#[global] Arguments to_u8 : simpl never.
#[global] Arguments to_u32 : simpl never.
#[global] Arguments to_usize : simpl never.
#[global] Arguments to_i32 : simpl never.
#[global] Arguments BOX : simpl never.
#[global] Arguments UNBOX : simpl never.
#[global] Arguments satAdd : simpl never.

(** ** Flat memory *)

Definition Mem := Z -> Z.

Definition store (m : Mem) (addr value : Z) : Mem :=
  fun a => if a =? addr then value else m a.

(** [std::fill(first, last, value)] on [usize*] iterators. *)
Definition fill (m : Mem) (first last value : Z) : Mem :=
  fun a =>
    if (first <=? a) && (a <? last) && ((a - first) mod word_size =? 0)
    then value else m a.

(** Difference of two [usize*] pointers, in elements. *)
Definition ptrdiff (p q : Z) : Z := (p - q) / word_size.

(** ** The value stack ([class Stack]) *)

Definition MAX_STACK_SIZE : Z := 100000.

(** [enum class VariableType : u8]; the decoder casts raw bytes to it. *)
Definition Global : Z := 0.
Definition Local : Z := 1.
Definition Argument : Z := 2.
Definition Captured : Z := 3.

(** The fields of [Stack], with the two globals [__gc_stack_top] and
    [__gc_stack_bottom] of the runtime that the stack uses as its top and
    bottom markers, and the memory the array [innerData] lives in.
    [innerData] is the address [innerData.data()]; the array occupies the
    [MAX_STACK_SIZE] words from there.  The other fields are registers:
    a store to the word that holds one of them in the program (the three
    words before the array for [bp], [nArgs] and [nLocals], the two after
    it for [begin] and [globalsSize]) does not change the register. *)
Record Stack := mkStack {
  bp : Z;
  nArgs : Z;
  nLocals : Z;
  innerData : Z;
  begin : Z;
  globalsSize : Z;
  gc_stack_top : Z;
  gc_stack_bottom : Z;
  mem : Mem
}.

Definition set_bp (v : Z) (s : Stack) : Stack :=
  mkStack v (nArgs s) (nLocals s) (innerData s) (begin s) (globalsSize s)
          (gc_stack_top s) (gc_stack_bottom s) (mem s).
Definition set_nArgs (v : Z) (s : Stack) : Stack :=
  mkStack (bp s) v (nLocals s) (innerData s) (begin s) (globalsSize s)
          (gc_stack_top s) (gc_stack_bottom s) (mem s).
Definition set_nLocals (v : Z) (s : Stack) : Stack :=
  mkStack (bp s) (nArgs s) v (innerData s) (begin s) (globalsSize s)
          (gc_stack_top s) (gc_stack_bottom s) (mem s).
Definition set_gc_stack_top (v : Z) (s : Stack) : Stack :=
  mkStack (bp s) (nArgs s) (nLocals s) (innerData s) (begin s) (globalsSize s)
          v (gc_stack_bottom s) (mem s).
Definition set_mem (m : Mem) (s : Stack) : Stack :=
  mkStack (bp s) (nArgs s) (nLocals s) (innerData s) (begin s) (globalsSize s)
          (gc_stack_top s) (gc_stack_bottom s) m.

(** A word address is a slot of the stack's backing array. *)
Definition in_array (s : Stack) (addr : Z) : Prop :=
  innerData s <= addr < innerData s + word_size * MAX_STACK_SIZE.

(** [*(__gc_stack_top--) = value] *)
Definition push (value : Z) (s : Stack) : Stack :=
  set_gc_stack_top (gc_stack_top s - word_size)
    (set_mem (store (mem s) (gc_stack_top s) value) s).

(** [return *(++__gc_stack_top)] *)
Definition pop (s : Stack) : Z * Stack :=
  let s' := set_gc_stack_top (gc_stack_top s + word_size) s in
  (mem s' (gc_stack_top s'), s').

(** [return *(__gc_stack_top + 1)] *)
Definition top (s : Stack) : Z := mem s (gc_stack_top s + word_size * 1).

Definition stackBegin (s : Stack) : Z := begin s.

Definition enoughToPop (n : Z) (s : Stack) : bool :=
  n <=? to_usize (ptrdiff (begin s) (gc_stack_top s)).

Definition enoughToPush (n : Z) (s : Stack) : bool :=
  n <=? to_usize (ptrdiff (innerData s) (gc_stack_top s)).

Definition getReference (index kind : Z) (s : Stack) : option Z :=
  if kind =? Global then
    if globalsSize s <? index then None
    else Some (begin s + word_size * 1 + word_size * index)
  else if kind =? Local then
    if nLocals s <=? index then None
    else Some (bp s - word_size * 1 - word_size * index)
  else if kind =? Argument then
    if nArgs s <=? index then None
    else Some (bp s + word_size * 3 + word_size * nArgs s - word_size * index)
  else if kind =? Captured then
    let closure := mem s (bp s + word_size * 3 + word_size * nArgs s + word_size * 1) in
    Some (closure + word_size * 1 + word_size * index)
  else None.

Definition prologue (beginInClosure : bool) (newNArgs newNLocals : Z) (s : Stack)
  : bool * Stack :=
  if negb (enoughToPush (satAdd 4 newNLocals) s) then (false, s) else
  let s := push (to_usize (BOX (nArgs s))) s in
  let s := push (to_usize (BOX (nLocals s))) s in
  let s := push (bp s) s in
  let s := set_nArgs newNArgs s in
  let s := set_nLocals newNLocals s in
  let s := set_bp (gc_stack_top s + word_size * 1) s in
  let s := set_gc_stack_top (gc_stack_top s - word_size * to_u32 (newNLocals + 1)) s in
  let s := set_mem (fill (mem s) (gc_stack_top s)
                         (gc_stack_top s + word_size * newNLocals + word_size * 2)
                         (to_usize (BOX 0))) s in
  (true, s).

(** The result is the return address; [0] is [nullptr]. *)
Definition epilogue (isClosure : bool) (s : Stack) : Z * Stack :=
  let valuesToPop := 5 + (if isClosure then 1 else 0) in
  if negb (enoughToPop (satAdd valuesToPop (nArgs s)) s) then (0, s) else
  let '(retval, s) := pop s in
  let nArgsOld := nArgs s in
  let s := set_gc_stack_top (bp s - word_size * 1) s in
  let '(w, s) := pop s in
  let s := set_bp w s in
  let '(w, s) := pop s in
  let s := set_nLocals (to_u32 (UNBOX w)) s in
  let '(w, s) := pop s in
  let s := set_nArgs (to_u32 (UNBOX w)) s in
  let '(returnAddress, s) := pop s in
  let s := set_gc_stack_top (gc_stack_top s + word_size * nArgsOld) s in
  let s := if isClosure then snd (pop s) else s in
  let s := push retval s in
  (returnAddress, s).

Definition closureRelativeAddr (args : Z) (s : Stack) : Z :=
  let ptr := mem s (gc_stack_top s + word_size * 1 + word_size * args) in
  to_u32 (mem s ptr).

(** The constructor [Stack::Stack(globalsSizeWords)], for a stack object
    whose array sits at address [array] in the memory [m]. *)
Definition Stack_new (array : Z) (m : Mem) (globalsSizeWords : Z) : Stack :=
  let bottom := array + word_size * MAX_STACK_SIZE - word_size * 1 in
  let top0 := bottom - word_size * globalsSizeWords in
  let s := mkStack top0 2 0 array top0 globalsSizeWords top0 bottom m in
  let s := push (to_usize (BOX 0)) s in
  push 0 s.

(** ** Diagnostics

    What is sent to [std::cerr] or collected in a [DiagnosticsBag] is kept
    as the sequence of items passed to [operator<<]. *)

Inductive chunk :=
| Str (s : string)
| Num (n : Z).

Definition Diagnostic := list chunk.
Definition DiagnosticsBag := list Diagnostic.

Definition NOT_ENOUGH_POP : string := "Cannot allocate enough memory on stack: underflow".
Definition NOT_ENOUGH_PUSH : string := "Cannot allocate enough memory on stack: overflow".

(** ** The bytefile ([struct Bytefile]) *)

(** [std::span<T>]: the pointer [data()] and the element count [size()]. *)
Record span := mkSpan { data : Z; size : Z }.

(** A default-constructed span. *)
Definition empty_span : span := mkSpan 0 0.

(** [ram] is the byte memory that holds the file buffer. *)
Record Bytefile := mkBytefile {
  strPool : span;
  publicSymbols : span;
  bytecode : span;
  globalAreaSize : Z;
  ip : Z;
  fileLine : Z;
  prevIP : Z;
  rawData : Z;
  ram : Z -> Z
}.

Definition set_ip (v : Z) (b : Bytefile) : Bytefile :=
  mkBytefile (strPool b) (publicSymbols b) (bytecode b) (globalAreaSize b)
             v (fileLine b) (prevIP b) (rawData b) (ram b).
Definition set_prevIP (v : Z) (b : Bytefile) : Bytefile :=
  mkBytefile (strPool b) (publicSymbols b) (bytecode b) (globalAreaSize b)
             (ip b) (fileLine b) v (rawData b) (ram b).
Definition set_fileLine (v : Z) (b : Bytefile) : Bytefile :=
  mkBytefile (strPool b) (publicSymbols b) (bytecode b) (globalAreaSize b)
             (ip b) v (prevIP b) (rawData b) (ram b).

Definition read_u8 (bytes : Z -> Z) (p : Z) : Z := to_u8 (bytes p).

(** [copyValues(&x, p)] for a four-byte [x] on the little-endian host. *)
Definition read_u32 (bytes : Z -> Z) (p : Z) : Z :=
  read_u8 bytes p + 2 ^ 8 * read_u8 bytes (p + 1)
  + 2 ^ 16 * read_u8 bytes (p + 2) + 2 ^ 24 * read_u8 bytes (p + 3).

(** The buffer of a file whose content is the list [file], read to
    address [ptr]; what lies around the buffer is [around]. *)
Definition load_file (around : Z -> Z) (ptr : Z) (file : list Z) : Z -> Z :=
  fun a =>
    if (ptr <=? a) && (a <? ptr + Z.of_nat (List.length file))
    then nth (Z.to_nat (a - ptr)) file 0 else around a.

(** [Bytefile::readBytefile], from the point where the file of [fileSize]
    bytes has been read into the buffer at [ptr].  The sizes are computed
    in [u32] and [usize] and wrap; [fileSize] is a 64-bit [std::streamoff],
    so what is compared with it or subtracted from it is first widened.
    Sums of a pointer and an offset are not wrapped. *)
Definition readBytefile (bytes : Z -> Z) (ptr : Z) (fileSize : Z)
  : DiagnosticsBag + Bytefile :=
  let u8ptr := ptr in
  let strPoolSize := read_u32 bytes u8ptr in
  let globalAreaSize := read_u32 bytes (u8ptr + 4) in
  let publicSymbolsNumber := read_u32 bytes (u8ptr + 2 * 4) in
  let headerSize := to_u32 (3 * 4) in
  let '(readErrors, r_publicSymbols) :=
    if fileSize <=? to_u32 (to_u32 (publicSymbolsNumber * 2) + headerSize) then
      ([[Str "public symbols size is "; Num (to_u32 (publicSymbolsNumber * 2));
         Str " bytes, while file size is "; Num fileSize; Str " bytes"]],
       empty_span)
    else
      ([], mkSpan (u8ptr + headerSize) (to_usize (to_usize publicSymbolsNumber * 2))) in
  let '(readErrors, r_strPool) :=
    if fileSize <=? to_u32 (to_u32 (strPoolSize + to_u32 (publicSymbolsNumber * 2)) + headerSize) then
      (readErrors ++
       [[Str "string pool size is "; Num strPoolSize;
         Str " bytes, while remaining file size is ";
         Num (fileSize - to_u32 (publicSymbolsNumber * 2) - headerSize); Str " bytes"]],
       empty_span)
    else
      (readErrors,
       mkSpan (u8ptr + headerSize + to_usize (to_u32 (publicSymbolsNumber * 2) * 4))
              (to_usize strPoolSize)) in
  let bytecodeSize :=
    to_usize (fileSize - to_usize (size r_publicSymbols * 4) - size r_strPool - headerSize) in
  let '(readErrors, r_bytecode) :=
    if (bytecodeSize =? 0) || (fileSize <=? bytecodeSize) then
      (readErrors ++
       [[Str " bytecode size is "; Num bytecodeSize;
         Str "bytes, while the whole file size is"; Num fileSize; Str " bytes"]],
       empty_span)
    else
      (readErrors,
       mkSpan (u8ptr + headerSize + to_usize (size r_publicSymbols * 4) + size r_strPool)
              bytecodeSize) in
  match readErrors with
  | [] => inr (mkBytefile r_strPool r_publicSymbols r_bytecode globalAreaSize
                          (data r_bytecode) 0 0 ptr bytes)
  | _ => inl readErrors
  end.

(** A [std::string_view] is kept as the pointer to its first character. *)
Definition getString (position : Z) (b : Bytefile) : option Z :=
  if size (strPool b) <=? position then None
  else Some (data (strPool b) + position).

Definition getNextInt (b : Bytefile) : Z * Bytefile :=
  (to_i32 (read_u32 (ram b) (ip b)), set_ip (ip b + 4) b).

Definition getNextUnsigned (b : Bytefile) : Z * Bytefile :=
  (read_u32 (ram b) (ip b), set_ip (ip b + 4) b).

Definition address (b : Bytefile) : Z := to_usize (ip b - data (bytecode b)).

Definition enoughBytes (bytes : Z) (b : Bytefile) : bool :=
  bytes <=? to_usize (size (bytecode b) - to_usize (ip b - data (bytecode b))).

Definition getNextString (b : Bytefile) : option Z * Bytefile :=
  if negb (enoughBytes 4 b) then (None, b) else
  let '(index, b) := getNextUnsigned b in
  (getString index b, b).

(** A [std::span<ClosureArg>] of packed five-byte records. *)
Definition closureArray (n : Z) (b : Bytefile) : span * Bytefile :=
  let args := ip b in
  (mkSpan args (to_u32 n), set_ip (ip b + to_usize ((1 + 4) * n)) b).

Definition trySetAddress (absoluteAddress : Z) (b : Bytefile) : bool * Bytefile :=
  if size (bytecode b) <=? absoluteAddress then (false, b)
  else (true, set_ip (data (bytecode b) + absoluteAddress) b).

Definition getNextCode (b : Bytefile) : Z * Bytefile :=
  let b := set_prevIP (ip b) b in
  (read_u8 (ram b) (ip b), set_ip (ip b + 1) b).

Definition peekNextCode (b : Bytefile) : Z := read_u8 (ram b) (ip b).

(** ** The runtime ([LamaRuntime.hpp], [gc.h], [runtime_common.h])

    The heap, the collector and the console are external to the
    interpreter.  A call into the runtime is a function of the runtime's
    own state and of the memory, which it may change.  The offsets of the
    members of the heap structures [data] and [sexp] come from
    [runtime_common.h]. *)

Definition call (R : Type) : Type := R -> Mem -> Z * R * Mem.

Class Runtime (R : Type) := {
  data_contents : Z;
  sexp_tag : Z;
  sexp_contents : Z;
  Belem : Z -> Z -> call R;
  Bsta : Z -> Z -> Z -> call R;
  Bstring : Z -> call R;
  Llength : Z -> call R;
  Lread : call R;
  LtagHash : Z -> call R;
  Btag : Z -> Z -> Z -> call R;
  Lstring : Z -> call R;
  Bstring_patt : Z -> Z -> call R;
  Bstring_tag_patt : Z -> call R;
  Barray_tag_patt : Z -> call R;
  Bsexp_tag_patt : Z -> call R;
  Bboxed_patt : Z -> call R;
  Bunboxed_patt : Z -> call R;
  Bclosure_tag_patt : Z -> call R;
  Barray_patt : Z -> Z -> call R;
  alloc_array : Z -> call R;
  alloc_sexp : Z -> call R;
  alloc_closure : Z -> call R
}.

(** ** The interpreter ([class Interpreter]) *)

Inductive InterpretResult := CONTINUE | STOP | ERROR.

(** [enum class BinOp : u8] *)
Module BinOp.
Definition ADD : Z := 1.
Definition SUB : Z := 2.
Definition MUL : Z := 3.
Definition DIV : Z := 4.
Definition REM : Z := 5.
Definition LT : Z := 6.
Definition LE : Z := 7.
Definition GT : Z := 8.
Definition GE : Z := 9.
Definition EQ : Z := 10.
Definition NE : Z := 11.
Definition AND : Z := 12.
Definition OR : Z := 13.
End BinOp.

(** [enum class PatternType : u8] *)
Module PatternType.
Definition Str : Z := 0.
Definition String : Z := 1.
Definition Array : Z := 2.
Definition Sexp : Z := 3.
Definition Boxed : Z := 4.
Definition Unboxed : Z := 5.
Definition Closure : Z := 6.
End PatternType.

(** The fields of [Interpreter], the state of the runtime it drives, and
    the two streams of the process: [cout] receives the integers that
    [Lwrite] prints, [cerr] the diagnostics. *)
Record Interpreter (R : Type) := mkInterpreter {
  isClosure : bool;
  stack : Stack;
  runtime : R;
  cout : list Z;
  cerr : list chunk
}.
Arguments mkInterpreter {R}.
Arguments isClosure {R}.
Arguments stack {R}.
Arguments runtime {R}.
Arguments cout {R}.
Arguments cerr {R}.

Definition bool_to_int (b : bool) : Z := if b then 1 else 0.

(** The value of [lhs op rhs] on two [i32]; [None] is the trap of a
    division by zero and the [FAIL()] of the [default] label.  A product
    that leaves the [i32] range wraps. *)
Definition binop (operation lhs rhs : Z) : option Z :=
  if operation =? BinOp.ADD then Some (to_i32 (lhs + rhs))
  else if operation =? BinOp.SUB then Some (to_i32 (lhs - rhs))
  else if operation =? BinOp.MUL then Some (to_i32 (lhs * rhs))
  else if operation =? BinOp.DIV then
    if rhs =? 0 then None else Some (to_i32 (Z.quot lhs rhs))
  else if operation =? BinOp.REM then
    if rhs =? 0 then None else Some (to_i32 (Z.rem lhs rhs))
  else if operation =? BinOp.LT then Some (bool_to_int (lhs <? rhs))
  else if operation =? BinOp.LE then Some (bool_to_int (lhs <=? rhs))
  else if operation =? BinOp.GT then Some (bool_to_int (lhs >? rhs))
  else if operation =? BinOp.GE then Some (bool_to_int (lhs >=? rhs))
  else if operation =? BinOp.EQ then Some (bool_to_int (lhs =? rhs))
  else if operation =? BinOp.NE then Some (bool_to_int (negb (lhs =? rhs)))
  else if operation =? BinOp.AND then
    Some (bool_to_int (negb (lhs =? 0) && negb (rhs =? 0)))
  else if operation =? BinOp.OR then
    Some (bool_to_int (negb (lhs =? 0) || negb (rhs =? 0)))
  else None.

Section Handlers.

Context {R : Type} {RT : Runtime R}.

Definition set_stack (s : Stack) (i : Interpreter R) : Interpreter R :=
  mkInterpreter (isClosure i) s (runtime i) (cout i) (cerr i).
Definition set_isClosure (c : bool) (i : Interpreter R) : Interpreter R :=
  mkInterpreter c (stack i) (runtime i) (cout i) (cerr i).
Definition print (v : Z) (i : Interpreter R) : Interpreter R :=
  mkInterpreter (isClosure i) (stack i) (runtime i) (cout i ++ [v]) (cerr i).
Definition log (msg : list chunk) (i : Interpreter R) : Interpreter R :=
  mkInterpreter (isClosure i) (stack i) (runtime i) (cout i) (cerr i ++ msg).

(** A call into the runtime from the interpreter. *)
Definition rt (c : call R) (i : Interpreter R) : Z * Interpreter R :=
  let '(v, r, m) := c (runtime i) (mem (stack i)) in
  (v, mkInterpreter (isClosure i) (set_mem m (stack i)) r (cout i) (cerr i)).

Definition ipush (v : Z) (i : Interpreter R) : Interpreter R :=
  set_stack (push v (stack i)) i.
Definition ipop (i : Interpreter R) : Z * Interpreter R :=
  let '(v, s) := pop (stack i) in (v, set_stack s i).
(** A store through a pointer, [*p = v]. *)
Definition poke (p v : Z) (i : Interpreter R) : Interpreter R :=
  set_stack (set_mem (store (mem (stack i)) p v) (stack i)) i.

Definition onBegin (beginInClosure : bool) (nArgs nLocals : Z) (i : Interpreter R)
  : InterpretResult * Interpreter R :=
  let '(ok, s) := prologue beginInClosure nArgs nLocals (stack i) in
  if negb ok then (ERROR, log [Str NOT_ENOUGH_PUSH] (set_stack s i))
  else (CONTINUE, set_stack s i).

Definition onCallLRead (i : Interpreter R) : InterpretResult * Interpreter R :=
  if negb (enoughToPush 1 (stack i)) then (ERROR, log [Str NOT_ENOUGH_PUSH] i) else
  let '(v, i) := rt Lread i in
  (CONTINUE, ipush (to_u32 v) i).

Definition onLine (line : Z) (i : Interpreter R) : InterpretResult * Interpreter R :=
  (CONTINUE, i).

Definition onStore (index toSave : Z) (i : Interpreter R)
  : InterpretResult * Interpreter R :=
  if negb (enoughToPop 1 (stack i)) then (ERROR, log [Str NOT_ENOUGH_POP] i) else
  let top := top (stack i) in
  match getReference index toSave (stack i) with
  | None =>
      (ERROR, log [Str "Cannot get reference on index "; Num index;
                   Str " for type "; Num toSave] i)
  | Some res => (CONTINUE, poke res top i)
  end.

Definition onDrop (i : Interpreter R) : InterpretResult * Interpreter R :=
  if negb (enoughToPop 1 (stack i)) then (ERROR, log [Str NOT_ENOUGH_POP] i) else
  (CONTINUE, snd (ipop i)).

Definition onLoad (index toLoad : Z) (i : Interpreter R)
  : InterpretResult * Interpreter R :=
  match getReference index toLoad (stack i) with
  | None =>
      (ERROR, log [Str "Cannot create reference with index "; Num index;
                   Str "and type "; Num toLoad] i)
  | Some ref =>
      if negb (enoughToPush 1 (stack i)) then (ERROR, log [Str NOT_ENOUGH_PUSH] i) else
      (CONTINUE, ipush (mem (stack i) ref) i)
  end.

(** [None]: the process is terminated ([FAIL()], or the trap of a
    division by zero). *)
Definition onBinOp (operation : Z) (i : Interpreter R)
  : option (InterpretResult * Interpreter R) :=
  if negb (enoughToPop 2 (stack i)) then Some (ERROR, log [Str NOT_ENOUGH_POP] i) else
  let '(w, i) := ipop i in
  let rhs := UNBOX w in
  let '(w, i) := ipop i in
  let lhs := UNBOX w in
  match binop operation lhs rhs with
  | None => None
  | Some result => Some (CONTINUE, ipush (to_usize (BOX result)) i)
  end.

Definition onConst (value : Z) (i : Interpreter R) : InterpretResult * Interpreter R :=
  if negb (enoughToPush 1 (stack i)) then (ERROR, log [Str NOT_ENOUGH_PUSH] i) else
  (CONTINUE, ipush (to_usize (BOX value)) i).

Definition onCallLWrite (i : Interpreter R) : InterpretResult * Interpreter R :=
  if negb (enoughToPop 1 (stack i)) then (ERROR, log [Str NOT_ENOUGH_POP] i) else
  let '(w, i) := ipop i in
  let val := UNBOX w in
  let i := print val i in
  (CONTINUE, ipush (to_usize (BOX 0)) i).

(** The result is the next instruction pointer; [0] is [nullptr]. *)
Definition onEndOrRet (i : Interpreter R) : Z * Interpreter R :=
  let '(result, i) :=
    if negb (bp (stack i) =? stackBegin (stack i) - word_size * 1) then
      let '(r, s) := epilogue (isClosure i) (stack i) in (r, set_stack s i)
    else (0, i) in
  (result, set_isClosure false i).

Definition onJump (jumpLocation : Z) (i : Interpreter R) : Z * Interpreter R :=
  (jumpLocation, i).

Definition onCondJump (isNotEq : bool) (jumpLocation originalAddress : Z)
           (i : Interpreter R) : option Z * Interpreter R :=
  if negb (enoughToPop 1 (stack i)) then (None, log [Str NOT_ENOUGH_POP] i) else
  let '(w, i) := ipop i in
  let top := UNBOX w in
  if ((top =? 0) && negb isNotEq) || (negb (top =? 0) && isNotEq)
  then (Some jumpLocation, i)
  else (Some originalAddress, i).

Definition onCall (location nArgs originalIP : Z) (i : Interpreter R)
  : option Z * Interpreter R :=
  if negb (enoughToPush 1 (stack i)) then (None, log [Str NOT_ENOUGH_PUSH] i) else
  let ip := originalIP in
  (Some location, ipush ip i).

Definition onString (str : Z) (i : Interpreter R) : InterpretResult * Interpreter R :=
  if negb (enoughToPush 1 (stack i)) then (ERROR, log [Str NOT_ENOUGH_PUSH] i) else
  let '(objString, i) := rt (Bstring str) i in
  (CONTINUE, ipush objString i).

Definition onCallLLength (i : Interpreter R) : InterpretResult * Interpreter R :=
  if negb (enoughToPop 1 (stack i)) then (ERROR, log [Str NOT_ENOUGH_POP] i) else
  let '(val, i) := ipop i in
  let '(len, i) := rt (Llength val) i in
  (CONTINUE, ipush (to_u32 len) i).

Definition onElem (i : Interpreter R) : InterpretResult * Interpreter R :=
  if negb (enoughToPop 2 (stack i)) then (ERROR, log [Str NOT_ENOUGH_POP] i) else
  let '(index, i) := ipop i in
  let '(valToPtr, i) := ipop i in
  let '(element, i) := rt (Belem valToPtr (to_i32 index)) i in
  (CONTINUE, ipush element i).

Definition onSTA (i : Interpreter R) : InterpretResult * Interpreter R :=
  if negb (enoughToPop 3 (stack i)) then (ERROR, log [Str NOT_ENOUGH_POP] i) else
  let '(valuePtr, i) := ipop i in
  let '(w, i) := ipop i in
  let idx := to_i32 w in
  let '(xPtr, i) := ipop i in
  let '(res, i) := rt (Bsta valuePtr idx xPtr) i in
  (CONTINUE, ipush res i).

(** The loop [for (; n > 0; --n) { contents[n - 1] = stack.pop(); }]
    of [onCallBArray] and [onSexp]. *)
Fixpoint pop_into (contents : Z) (n : nat) (i : Interpreter R) : Interpreter R :=
  match n with
  | O => i
  | S k =>
      let '(elem, i) := ipop i in
      pop_into contents k (poke (contents + word_size * Z.of_nat k) elem i)
  end.

Definition onCallBArray (n : Z) (i : Interpreter R) : InterpretResult * Interpreter R :=
  if negb (enoughToPop n (stack i)) then (ERROR, log [Str NOT_ENOUGH_POP] i) else
  let '(bArray, i) := rt (alloc_array (to_i32 n)) i in
  let i := pop_into (bArray + data_contents) (Z.to_nat n) i in
  let arr := bArray + data_contents in
  (CONTINUE, ipush arr i).

Definition onSexp (tag : Z) (n : Z) (i : Interpreter R) : InterpretResult * Interpreter R :=
  if negb (enoughToPop n (stack i)) then (ERROR, log [Str NOT_ENOUGH_POP] i) else
  let '(sExpArray, i) := rt (alloc_sexp (to_i32 n)) i in
  let i := poke (sExpArray + sexp_tag) 0 i in
  let i := pop_into (sExpArray + sexp_contents) (Z.to_nat n) i in
  let '(hash, i) := rt (LtagHash tag) i in
  let i := poke (sExpArray + sexp_tag) (to_u32 (UNBOX hash)) i in
  (CONTINUE, ipush (sExpArray + sexp_tag) i).

Definition onDuplicate (i : Interpreter R) : InterpretResult * Interpreter R :=
  if negb (enoughToPop 1 (stack i)) then (ERROR, log [Str NOT_ENOUGH_POP] i) else
  if negb (enoughToPush 1 (stack i)) then (ERROR, log [Str NOT_ENOUGH_PUSH] i) else
  (CONTINUE, ipush (top (stack i)) i).

Definition onTag (name : Z) (n : Z) (i : Interpreter R) : InterpretResult * Interpreter R :=
  if negb (enoughToPop 1 (stack i)) then (ERROR, log [Str NOT_ENOUGH_POP] i) else
  let '(hash, i) := rt (LtagHash name) i in
  let boxed := BOX n in
  let '(d, i) := ipop i in
  let '(value, i) := rt (Btag d hash boxed) i in
  (CONTINUE, ipush (to_u32 value) i).

Definition onCallLString (i : Interpreter R) : InterpretResult * Interpreter R :=
  if negb (enoughToPop 1 (stack i)) then (ERROR, log [Str NOT_ENOUGH_POP] i) else
  let '(p, i) := ipop i in
  let '(str, i) := rt (Lstring p) i in
  (CONTINUE, ipush (to_u32 str) i).

Definition onLoadAccumulator (index toLoad : Z) (i : Interpreter R)
  : InterpretResult * Interpreter R :=
  match getReference index toLoad (stack i) with
  | None =>
      (ERROR, log [Str "cannot create reference in closure for index"; Num index;
                   Str " and value "; Num toLoad] i)
  | Some ref =>
      if negb (enoughToPush 2 (stack i)) then (ERROR, log [Str NOT_ENOUGH_PUSH] i) else
      let val := to_u32 ref in
      (CONTINUE, ipush val (ipush val i))
  end.

(** The loop of [onClosure] over the capture descriptors: [n] packed
    records [(u8 type, u32 index)] from address [arg] of the bytefile
    memory [bytes]; the captured value goes to the closure cell [slot]. *)
Fixpoint capture (bytes : Z -> Z) (arg slot : Z) (n : nat) (i : Interpreter R)
  : bool * Interpreter R :=
  match n with
  | O => (true, i)
  | S k =>
      let type := read_u8 bytes arg in
      let index := read_u32 bytes (arg + 1) in
      match getReference index type (stack i) with
      | None =>
          (false, log [Str "cannot create reference in closure for index"; Num index;
                       Str " and value "; Num type] i)
      | Some res =>
          capture bytes (arg + 5) (slot + word_size) k
                  (poke slot (to_u32 (mem (stack i) res)) i)
      end
  end.

(** [args] is a span over the bytefile memory [bytes]. *)
Definition onClosure (bytes : Z -> Z) (address : Z) (args : span) (i : Interpreter R)
  : InterpretResult * Interpreter R :=
  if negb (enoughToPush 1 (stack i)) then (ERROR, log [Str NOT_ENOUGH_PUSH] i) else
  let '(closure, i) := rt (alloc_closure (to_i32 (to_usize (size args + 1)))) i in
  if closure =? 0 then
    (CONTINUE, log [Str "Cannot allocate memory for closure"] i)
  else
  let i := poke (closure + data_contents) address i in
  let '(ok, i) :=
    capture bytes (data args) (closure + data_contents + word_size * 1)
            (Z.to_nat (size args)) i in
  if negb ok then (ERROR, i) else
  let value := closure + data_contents in
  (CONTINUE, ipush (to_u32 value) i).

Definition onCallClosure (returnAddress nArgs : Z) (i : Interpreter R)
  : option Z * Interpreter R :=
  if negb (enoughToPush 1 (stack i)) then (None, log [Str NOT_ENOUGH_PUSH] i) else
  let addr := closureRelativeAddr nArgs (stack i) in
  let i := ipush returnAddress i in
  let i := set_isClosure true i in
  (Some addr, i).

Definition onPattern (pattern : Z) (i : Interpreter R) : InterpretResult * Interpreter R :=
  if negb (enoughToPop 1 (stack i)) then (ERROR, log [Str NOT_ENOUGH_POP] i) else
  let unary (func : Z -> call R) :=
    let '(val, i) := ipop i in
    let '(result, i) := rt (func val) i in
    (CONTINUE, ipush (to_usize result) i) in
  if pattern =? PatternType.Str then
    if negb (enoughToPop 1 (stack i)) then (ERROR, log [Str NOT_ENOUGH_POP] i) else
    let '(lhs, i) := ipop i in
    let '(rhs, i) := ipop i in
    let '(res, i) := rt (Bstring_patt lhs rhs) i in
    (CONTINUE, ipush (to_u32 res) i)
  else if pattern =? PatternType.String then unary Bstring_tag_patt
  else if pattern =? PatternType.Array then unary Barray_tag_patt
  else if pattern =? PatternType.Sexp then unary Bsexp_tag_patt
  else if pattern =? PatternType.Boxed then unary Bboxed_patt
  else if pattern =? PatternType.Unboxed then unary Bunboxed_patt
  else if pattern =? PatternType.Closure then unary Bclosure_tag_patt
  else (CONTINUE, ipush (to_usize 0) i).

Definition onArray (size : Z) (i : Interpreter R) : InterpretResult * Interpreter R :=
  if negb (enoughToPop 1 (stack i)) then (ERROR, log [Str NOT_ENOUGH_POP] i) else
  let '(array, i) := ipop i in
  let '(isArray, i) := rt (Barray_patt array (BOX size)) i in
  (CONTINUE, ipush (to_u32 isArray) i).

Definition onSwap (i : Interpreter R) : InterpretResult * Interpreter R :=
  if negb (enoughToPop 2 (stack i)) then (ERROR, log [Str NOT_ENOUGH_POP] i) else
  let '(first, i) := ipop i in
  let '(second, i) := ipop i in
  (CONTINUE, ipush second (ipush first i)).

Definition onFail (i : Interpreter R) : InterpretResult * Interpreter R :=
  if negb (enoughToPop 2 (stack i)) then
    (ERROR, log [Str "Critical -- not enough values for fail message"] i)
  else
    let '(first, i) := ipop i in
    let '(second, i) := ipop i in
    (ERROR, log [Str "Something went wrong: "; Num first; Str ", "; Num second] i).

(** ** The decoder and dispatcher ([interpretOne] of [Main.cpp])

    [None]: the process is terminated ([FAIL()] on [STI], or inside
    [onBinOp]). *)

Definition checkEnoughBytes_failed (bytes : Z) (bytefile : Bytefile)
           (interpreter : Interpreter R)
  : option (InterpretResult * Bytefile * Interpreter R) :=
  Some (ERROR, bytefile,
        log [Str "Bytecode could not read next to"; Num bytes; Str " bytes"] interpreter).

Definition trySetAddr_failed (action : string) (address : Z) (bytefile : Bytefile)
           (interpreter : Interpreter R)
  : option (InterpretResult * Bytefile * Interpreter R) :=
  Some (ERROR, bytefile,
        log [Str "Cannot "; Str action; Str " to address 0x"; Num address;
             Str " -- outside bytecode"] interpreter).

Definition returned (bytefile : Bytefile) (r : InterpretResult * Interpreter R)
  : option (InterpretResult * Bytefile * Interpreter R) :=
  Some (fst r, bytefile, snd r).

Definition interpretOne (bytefile : Bytefile) (interpreter : Interpreter R)
  : option (InterpretResult * Bytefile * Interpreter R) :=
  if negb (enoughBytes 1 bytefile) then checkEnoughBytes_failed 1 bytefile interpreter else
  let '(code, bytefile) := getNextCode bytefile in
  let low := Z.land code 0x0F in
  match code with
  | 0x01 | 0x02 | 0x03 | 0x04 | 0x05 | 0x06 | 0x07
  | 0x08 | 0x09 | 0x0A | 0x0B | 0x0C | 0x0D =>
      let operation := low in
      match onBinOp operation interpreter with
      | None => None
      | Some r => returned bytefile r
      end
  | 0x10 (* CONST *) =>
      if negb (enoughBytes 4 bytefile) then checkEnoughBytes_failed 4 bytefile interpreter else
      let '(val, bytefile) := getNextInt bytefile in
      returned bytefile (onConst val interpreter)
  | 0x11 (* STRING *) =>
      let '(val, bytefile) := getNextString bytefile in
      match val with
      | None => Some (ERROR, bytefile, interpreter)
      | Some str => returned bytefile (onString str interpreter)
      end
  | 0x12 (* SEXP *) =>
      let '(tag, bytefile) := getNextString bytefile in
      match tag with
      | None => Some (ERROR, bytefile, interpreter)
      | Some tag =>
          if negb (enoughBytes 4 bytefile)
          then checkEnoughBytes_failed 4 bytefile interpreter else
          let '(n, bytefile) := getNextUnsigned bytefile in
          returned bytefile (onSexp tag n interpreter)
      end
  | 0x13 (* STI *) => None
  | 0x14 (* STA *) => returned bytefile (onSTA interpreter)
  | 0x15 (* JMP *) =>
      if negb (enoughBytes 4 bytefile) then checkEnoughBytes_failed 4 bytefile interpreter else
      let '(toJump, bytefile) := getNextUnsigned bytefile in
      let '(absoluteAddress, interpreter) := onJump toJump interpreter in
      let '(ok, bytefile) := trySetAddress absoluteAddress bytefile in
      if negb ok then Some (ERROR, bytefile, interpreter)
      else Some (CONTINUE, bytefile, interpreter)
  | 0x16 | 0x17 (* END, RET *) =>
      let '(nextCode, interpreter) := onEndOrRet interpreter in
      let bytefile := set_ip nextCode bytefile in
      if nextCode =? 0 then Some (STOP, bytefile, interpreter)
      else Some (CONTINUE, bytefile, interpreter)
  | 0x18 (* DROP *) => returned bytefile (onDrop interpreter)
  | 0x19 (* DUP *) => returned bytefile (onDuplicate interpreter)
  | 0x1A (* SWAP *) => returned bytefile (onSwap interpreter)
  | 0x1B (* ELEM *) => returned bytefile (onElem interpreter)
  | 0x20 | 0x21 | 0x22 | 0x23 (* LD *) =>
      if negb (enoughBytes 4 bytefile) then checkEnoughBytes_failed 4 bytefile interpreter else
      let '(idx, bytefile) := getNextUnsigned bytefile in
      let type := low in
      returned bytefile (onLoad idx type interpreter)
  | 0x30 | 0x31 | 0x32 | 0x33 (* LDA *) =>
      if negb (enoughBytes 4 bytefile) then checkEnoughBytes_failed 4 bytefile interpreter else
      let '(idx, bytefile) := getNextUnsigned bytefile in
      let type := low in
      returned bytefile (onLoadAccumulator idx type interpreter)
  | 0x40 | 0x41 | 0x42 | 0x43 (* ST *) =>
      if negb (enoughBytes 4 bytefile) then checkEnoughBytes_failed 4 bytefile interpreter else
      let '(idx, bytefile) := getNextUnsigned bytefile in
      let storeType := low in
      returned bytefile (onStore idx storeType interpreter)
  | 0x50 | 0x51 (* CJMPz, CJMPnz *) =>
      if negb (enoughBytes 4 bytefile) then checkEnoughBytes_failed 4 bytefile interpreter else
      let isNotEq := negb (Z.land low 0x01 =? 0) in
      let '(jumpLocation, bytefile) := getNextUnsigned bytefile in
      let '(jump, interpreter) :=
        onCondJump isNotEq jumpLocation (address bytefile) interpreter in
      match jump with
      | None => Some (ERROR, bytefile, interpreter)
      | Some target =>
          let '(ok, bytefile) := trySetAddress (to_u32 target) bytefile in
          if negb ok then trySetAddr_failed "jump" (to_u32 target) bytefile interpreter
          else Some (CONTINUE, bytefile, interpreter)
      end
  | 0x52 | 0x53 (* BEGIN, CBEGIN *) =>
      if negb (enoughBytes (4 * 2) bytefile)
      then checkEnoughBytes_failed (4 * 2) bytefile interpreter else
      let isCBegin := negb (Z.land low 0x1 =? 0) in
      let '(nArgs, bytefile) := getNextUnsigned bytefile in
      let '(nLocals, bytefile) := getNextUnsigned bytefile in
      returned bytefile (onBegin isCBegin nArgs nLocals interpreter)
  | 0x54 (* CLOSURE *) =>
      if negb (enoughBytes (4 * 2) bytefile)
      then checkEnoughBytes_failed (4 * 2) bytefile interpreter else
      let '(address, bytefile) := getNextUnsigned bytefile in
      let '(n, bytefile) := getNextUnsigned bytefile in
      let '(args, bytefile) := closureArray n bytefile in
      returned bytefile (onClosure (ram bytefile) address args interpreter)
  | 0x55 (* CALLC *) =>
      if negb (enoughBytes 4 bytefile) then checkEnoughBytes_failed 4 bytefile interpreter else
      let '(nArgs, bytefile) := getNextUnsigned bytefile in
      let '(closureAddress, interpreter) := onCallClosure (ip bytefile) nArgs interpreter in
      match closureAddress with
      | None => Some (ERROR, bytefile, interpreter)
      | Some target =>
          let '(ok, bytefile) := trySetAddress (to_u32 target) bytefile in
          if negb ok then trySetAddr_failed "jump" (to_u32 target) bytefile interpreter else
          let nextOpcode := peekNextCode bytefile in
          if negb (nextOpcode =? 0x53) && negb (nextOpcode =? 0x52) then
            Some (ERROR, bytefile,
                  log [Str "Cannot call closure to address 0x"; Num target;
                       Str " -- next opcode is "; Num nextOpcode;
                       Str " not (C)BEGIN"] interpreter)
          else Some (CONTINUE, bytefile, interpreter)
      end
  | 0x56 (* CALL *) =>
      if negb (enoughBytes (4 * 2) bytefile)
      then checkEnoughBytes_failed (4 * 2) bytefile interpreter else
      let '(location, bytefile) := getNextUnsigned bytefile in
      let '(nArgs, bytefile) := getNextUnsigned bytefile in
      let '(callAddress, interpreter) := onCall location nArgs (ip bytefile) interpreter in
      match callAddress with
      | None => Some (ERROR, bytefile, interpreter)
      | Some target =>
          let '(ok, bytefile) := trySetAddress (to_u32 target) bytefile in
          if negb ok then trySetAddr_failed "call" (to_u32 target) bytefile interpreter else
          if negb (peekNextCode bytefile =? 0x52) then
            Some (ERROR, bytefile,
                  log [Str "Cannot call to address 0x"; Num target;
                       Str " -- next opcode is "; Num (peekNextCode bytefile);
                       Str " not BEGIN"] interpreter)
          else Some (CONTINUE, bytefile, interpreter)
      end
  | 0x57 (* TAG *) =>
      let '(name, bytefile) := getNextString bytefile in
      match name with
      | None => Some (ERROR, bytefile, log [Str "could not retrieve a string"] interpreter)
      | Some name =>
          let '(n, bytefile) := getNextUnsigned bytefile in
          returned bytefile (onTag name n interpreter)
      end
  | 0x58 (* ARRAY *) =>
      let '(size, bytefile) := getNextUnsigned bytefile in
      returned bytefile (onArray size interpreter)
  | 0x59 (* FAIL *) => returned bytefile (onFail interpreter)
  | 0x5A (* LINE *) =>
      let '(line, bytefile) := getNextUnsigned bytefile in
      let bytefile := set_fileLine line bytefile in
      returned bytefile (onLine line interpreter)
  | 0x60 | 0x61 | 0x62 | 0x63 | 0x64 | 0x65 | 0x66 (* PATT *) =>
      let type := low in
      returned bytefile (onPattern type interpreter)
  | 0x70 (* CALL Lread *) => returned bytefile (onCallLRead interpreter)
  | 0x71 (* CALL Lwrite *) => returned bytefile (onCallLWrite interpreter)
  | 0x72 (* CALL Llength *) => returned bytefile (onCallLLength interpreter)
  | 0x73 (* CALL Lstring *) => returned bytefile (onCallLString interpreter)
  | 0x74 (* CALL Barray *) =>
      let '(arg, bytefile) := getNextUnsigned bytefile in
      returned bytefile (onCallBArray arg interpreter)
  | _ =>
      Some (ERROR, bytefile, log [Str "unknown opcode "; Num code] interpreter)
  end.

End Handlers.

(** [Interpreter::Interpreter(globalAreaSize)], for a stack array at
    address [array] in the memory [m] and a runtime in state [r]. *)
Definition Interpreter_new {R : Type} (array : Z) (m : Mem) (r : R) (globalsSize : Z)
  : Interpreter R :=
  mkInterpreter false (Stack_new array m globalsSize) r [] [].

(** The loop of [main], run for at most [fuel] instructions; the result is
    [None] while the program is still running after [fuel] steps or when
    the process was terminated. *)
Fixpoint run {R : Type} {RT : Runtime R} (fuel : nat) (bytefile : Bytefile)
         (interpreter : Interpreter R)
  : option (InterpretResult * Bytefile * Interpreter R) :=
  match fuel with
  | O => None
  | S fuel' =>
      match interpretOne bytefile interpreter with
      | None => None
      | Some (CONTINUE, bytefile', interpreter') => run fuel' bytefile' interpreter'
      | Some r => Some r
      end
  end.

(** * Vocabulary of the properties and example inputs *)

(** ** A runtime for closed examples

    A heap that is exhausted: every allocation returns the null pointer
    and every other entry point returns [0].  It stands for no real
    runtime; closed examples need some instance of the interface. *)

Definition returns_zero : call unit := fun r m => (0, r, m).

#[local] Instance exhausted_runtime : Runtime unit := {|
  data_contents := 8;
  sexp_tag := 8;
  sexp_contents := 12;
  Belem := fun _ _ => returns_zero;
  Bsta := fun _ _ _ => returns_zero;
  Bstring := fun _ => returns_zero;
  Llength := fun _ => returns_zero;
  Lread := returns_zero;
  LtagHash := fun _ => returns_zero;
  Btag := fun _ _ _ => returns_zero;
  Lstring := fun _ => returns_zero;
  Bstring_patt := fun _ _ => returns_zero;
  Bstring_tag_patt := fun _ => returns_zero;
  Barray_tag_patt := fun _ => returns_zero;
  Bsexp_tag_patt := fun _ => returns_zero;
  Bboxed_patt := fun _ => returns_zero;
  Bunboxed_patt := fun _ => returns_zero;
  Bclosure_tag_patt := fun _ => returns_zero;
  Barray_patt := fun _ _ => returns_zero;
  alloc_array := fun _ => returns_zero;
  alloc_sexp := fun _ => returns_zero;
  alloc_closure := fun _ => returns_zero
|}.

(** A bytefile whose bytecode is the list [code], placed at address
    [4096]; there is no string pool and no public symbol. *)
Definition bytefile_of_code (around : Z -> Z) (code : list Z) : Bytefile :=
  mkBytefile (mkSpan 4096 0) (mkSpan 4096 0)
             (mkSpan 4096 (Z.of_nat (List.length code)))
             0 4096 0 0 4084 (load_file around 4096 code).

(** The bytefile after [getNextCode]. *)
Definition after_opcode (b : Bytefile) : Bytefile :=
  set_ip (ip b + 1) (set_prevIP (ip b) b).

(** A file of 23 bytes: a header that declares a string pool of two
    bytes, [99998] globals and no public symbol; the pool ["t"]; and the
    bytecode [SEXP "t" 0]. *)
Definition sexp_file : list Z :=
  [2; 0; 0; 0;  0x9E; 0x86; 0x01; 0x00;  0; 0; 0; 0;
   0x74; 0;
   0x12; 0; 0; 0; 0; 0; 0; 0; 0].

(** What the reader makes of [sexp_file] loaded at address [4096]. *)
Definition sexp_bytefile : Bytefile :=
  mkBytefile (mkSpan (4096 + 12) 2) (mkSpan (4096 + 12) 0) (mkSpan (4096 + 14) 9)
             99998 (4096 + 14) 0 0 4096 (load_file (fun _ => 0) 4096 sexp_file).

(** The effect of a call as its caller sees it, from the state [s0] in
    which the return address has just been pushed on top of the
    arguments to the state [s2] after the return: [consumed] words below
    the return address are gone, one word has been pushed in their place,
    the words above it are untouched, and the frame registers are those
    of [s0]. *)
Definition call_effect (consumed : Z) (s0 s2 : Stack) : Prop :=
  gc_stack_top s2 = gc_stack_top s0 + word_size + word_size * consumed - word_size /\
  (forall addr, gc_stack_top s2 + word_size < addr -> mem s2 addr = mem s0 addr) /\
  bp s2 = bp s0 /\
  nArgs s2 = nArgs s0 /\
  nLocals s2 = nLocals s0.

(** A stack in use: one global, two arguments and a return address
    pushed by a caller. *)
Definition example_call_site : Stack :=
  push 4105 (push 45 (push 15 (Stack_new 65536 (fun _ => 0) 1))).

(** A call site of a closure: the closure pointer, one argument and the
    return address. *)
Definition example_closure_call_site : Stack :=
  push 4105 (push 15 (push 8388608 (Stack_new 65536 (fun _ => 0) 1))).

(** A call site inside a function that was entered with [2^30] declared
    arguments. *)
Definition example_wide_call_site : Stack :=
  push 4105 (snd (prologue false (2 ^ 30) 0 (Stack_new 65536 (fun _ => 0) 1))).

(** A view of [elem]-byte elements lies inside the buffer of [fileSize]
    bytes at [ptr]. *)
Definition span_inside (elem : Z) (v : span) (ptr fileSize : Z) : Prop :=
  ptr <= data v /\ data v + elem * size v <= ptr + fileSize.

Definition views_inside (b : Bytefile) (ptr fileSize : Z) : Prop :=
  span_inside 4 (publicSymbols b) ptr fileSize /\
  span_inside 1 (strPool b) ptr fileSize /\
  span_inside 1 (bytecode b) ptr fileSize.

(** Two views share no byte. *)
Definition spans_disjoint (e1 : Z) (v1 : span) (e2 : Z) (v2 : span) : Prop :=
  data v1 + e1 * size v1 <= data v2 \/ data v2 + e2 * size v2 <= data v1.

Definition views_disjoint (b : Bytefile) : Prop :=
  spans_disjoint 4 (publicSymbols b) 1 (strPool b) /\
  spans_disjoint 4 (publicSymbols b) 1 (bytecode b) /\
  spans_disjoint 1 (strPool b) 1 (bytecode b).

(** A file of twenty bytes: a header that declares a string pool of
    [0xFFFFFFF0] bytes, no global and two public symbols, and eight more
    bytes. *)
Definition oversized_pool_file : list Z :=
  [0xF0; 0xFF; 0xFF; 0xFF;  0; 0; 0; 0;  2; 0; 0; 0;
   0x16; 0; 0; 0;  0; 0; 0; 0].

(** What the reader makes of [oversized_pool_file] loaded at address
    [4096]. *)
Definition oversized_pool_bytefile : Bytefile :=
  mkBytefile (mkSpan (4096 + 28) 0xFFFFFFF0) (mkSpan (4096 + 12) 4)
             (mkSpan (4096 + 28 + 0xFFFFFFF0) 8)
             0 (4096 + 28 + 0xFFFFFFF0) 0 0 4096
             (load_file (fun _ => 0) 4096 oversized_pool_file).

(** A bytefile with a string pool of one byte at address [2048] and the
    bytecode [code] at address [4096]. *)
Definition bytefile_with_pool (around : Z -> Z) (code : list Z) : Bytefile :=
  mkBytefile (mkSpan 2048 1) (mkSpan 2048 0)
             (mkSpan 4096 (Z.of_nat (List.length code)))
             0 4096 0 0 2036 (load_file around 4096 code).

(** The slot of the current frame that holds the return address. *)
Definition saved_return_address (s : Stack) : Z :=
  mem s (bp s + word_size * 3).

(** A nested frame: the main function has called a function of one
    argument from the bytecode address [4105]; the callee has pushed its
    result. *)
Definition example_nested_interpreter : Interpreter unit :=
  let s := Stack_new 65536 (fun _ => 0) 1 in
  let s := snd (prologue false 2 0 s) in
  let s := push 4105 (push 15 s) in
  let s := snd (prologue false 1 0 s) in
  let s := push 31 s in
  mkInterpreter false s tt [] [].

(** A conditional jump over one instruction, with a boxed zero on top of
    the stack. *)
Definition example_cjmp_interpreter : Interpreter unit :=
  mkInterpreter false (push (to_usize (BOX 0)) (Stack_new 65536 (fun _ => 0) 1)) tt [] [].

(** The sum of two constants: [3] and [4] boxed on the stack, [BINOP +]
    next. *)
Definition example_add_interpreter : Interpreter unit :=
  mkInterpreter false
    (push (to_usize (BOX 4)) (push (to_usize (BOX 3)) (Stack_new 65536 (fun _ => 0) 1)))
    tt [] [].

(** What a run printed and how it ended. *)
Definition printed (r : option (InterpretResult * Bytefile * Interpreter unit))
  : option (InterpretResult * list Z) :=
  match r with
  | Some (res, _, i) => Some (res, cout i)
  | None => None
  end.

(** The stack holds [k] words above its top: [begin - top = k]. *)
Definition holds (k : Z) (s : Stack) : Prop :=
  0 <= k < 2 ^ 32 /\ gc_stack_top s = begin s - word_size * k.

(** The instruction pointer is inside the bytecode view or at its end. *)
Definition ip_in_buffer (b : Bytefile) : Prop :=
  0 <= size (bytecode b) < 2 ^ 32 /\
  data (bytecode b) <= ip b <= data (bytecode b) + size (bytecode b).

(** A file of 25 bytes: a header that declares a string pool of two
    bytes, no global and one public symbol; the symbol; the pool; and
    three bytes of bytecode. *)
Definition small_file : list Z :=
  [2; 0; 0; 0;  0; 0; 0; 0;  1; 0; 0; 0;
   0; 0; 0; 0;  0; 0; 0; 0;
   0x74; 0;
   0x18; 0x18; 0x16].

(** The caller's pushes of a list of values, first to last. *)
Definition push_all (vs : list Z) (s : Stack) : Stack :=
  fold_left (fun s v => push v s) vs s.

(** A fresh stack with one global on which three values were pushed. *)
Definition example_three_values : Stack :=
  push_all [11; 22; 33] (Stack_new 65536 (fun _ => 0) 1).

(** The callee of a call with the arguments [5] and [7] from the bytecode
    address [4105], after its prologue for two arguments and three
    locals. *)
Definition example_callee : Interpreter unit :=
  mkInterpreter false
    (snd (prologue false 2 3
            (push 4105 (push_all [5; 7] (Stack_new 65536 (fun _ => 0) 1)))))
    tt [] [].

(** An interpreter whose stack holds the boxed values [3] and [4] in a
    frame with two locals. *)
Definition example_frame_interpreter : Interpreter unit :=
  mkInterpreter false
    (push (to_usize (BOX 4))
       (push (to_usize (BOX 3))
          (snd (prologue false 2 2 (Stack_new 65536 (fun _ => 0) 1)))))
    tt [] [].

(** The instruction pointer of [b'] is inside the bytecode view, and
    the decoder has left the views and the buffer of [b] to [b']. *)
Definition cursor_kept (b b' : Bytefile) : Prop :=
  ip_in_buffer b' /\ bytecode b' = bytecode b /\ strPool b' = strPool b /\ ram b' = ram b.

(** The registers of the current frame. *)
Definition frame_registers (s : Stack) : Z * Z * Z := (bp s, nArgs s, nLocals s).

(** Where the stack lives: its array, its first slot and the number of
    globals above it. *)
Definition layout (s : Stack) : Z * Z * Z := (innerData s, begin s, globalsSize s).

Definition registers (s : Stack) : (Z * Z * Z) * (Z * Z * Z) :=
  (frame_registers s, layout s).

(** What most instructions leave alone: the registers of the stack, the
    closure flag and the standard output. *)
Definition observables {R : Type} (i : Interpreter R)
  : (Z * Z * Z) * (Z * Z * Z) * bool * list Z :=
  (registers (stack i), isClosure i, cout i).

(** The opcodes whose handlers take at least one operand from the
    stack whatever their immediate operands are: the binary operators,
    [STA], [DROP], [DUP], [SWAP], [ELEM], the stores, the conditional
    jumps, [TAG], [ARRAY], [FAIL], the patterns and the calls of
    [Lwrite], [Llength] and [Lstring]. *)
Definition popping_opcodes : list Z :=
  [0x01; 0x02; 0x03; 0x04; 0x05; 0x06; 0x07; 0x08; 0x09; 0x0A; 0x0B; 0x0C; 0x0D;
   0x14; 0x18; 0x19; 0x1A; 0x1B; 0x40; 0x41; 0x42; 0x43; 0x50; 0x51;
   0x57; 0x58; 0x59; 0x60; 0x61; 0x62; 0x63; 0x64; 0x65; 0x66; 0x71; 0x72; 0x73].

(** An interpreter whose stack holds one word: one of the two words of
    the constructor has been dropped. *)
Definition example_one_value_interpreter : Interpreter unit :=
  mkInterpreter false (snd (pop (Stack_new 65536 (fun _ => 0) 1))) tt [] [].

(** An interpreter whose stack holds no word. *)
Definition example_empty_interpreter : Interpreter unit :=
  mkInterpreter false (snd (pop (snd (pop (Stack_new 65536 (fun _ => 0) 1))))) tt [] [].

(** A call of the function at offset [9] with one argument, followed by
    the function: [CALL 9 1; BEGIN 1 0; END]. *)
Definition example_call_code : list Z :=
  [0x56; 9; 0; 0; 0; 1; 0; 0; 0;
   0x52; 1; 0; 0; 0; 0; 0; 0; 0;
   0x16].

(** ** A runtime with a heap for closed examples

    A bump allocator: the state is the address of the next free byte; an
    allocation returns that address and moves it past a header of eight
    bytes and the words asked for.  Every other entry point returns
    [0].  Like [exhausted_runtime] it stands for no real runtime. *)

Definition bump_allocate (words : Z) : call Z :=
  fun next m => (next, next + 8 + word_size * words, m).

Definition answers_zero : call Z := fun r m => (0, r, m).

#[local] Instance bump_runtime : Runtime Z := {|
  data_contents := 8;
  sexp_tag := 8;
  sexp_contents := 12;
  Belem := fun _ _ => answers_zero;
  Bsta := fun _ _ _ => answers_zero;
  Bstring := fun _ => answers_zero;
  Llength := fun _ => answers_zero;
  Lread := answers_zero;
  LtagHash := fun _ => answers_zero;
  Btag := fun _ _ _ => answers_zero;
  Lstring := fun _ => answers_zero;
  Bstring_patt := fun _ _ => answers_zero;
  Bstring_tag_patt := fun _ => answers_zero;
  Barray_tag_patt := fun _ => answers_zero;
  Bsexp_tag_patt := fun _ => answers_zero;
  Bboxed_patt := fun _ => answers_zero;
  Bunboxed_patt := fun _ => answers_zero;
  Bclosure_tag_patt := fun _ => answers_zero;
  Barray_patt := fun _ _ => answers_zero;
  alloc_array := bump_allocate;
  alloc_sexp := fun n => bump_allocate (n + 1);
  alloc_closure := bump_allocate
|}.

(** The frame of [example_frame_interpreter] with a heap that starts at
    address [8388608]. *)
Definition example_heap_interpreter : Interpreter Z :=
  mkInterpreter false (stack example_frame_interpreter) 8388608 [] [].

(** The callee of a call of the closure at [8388616] with the argument
    [15] from the bytecode address [4105], after its prologue. *)
Definition example_closure_callee : Interpreter unit :=
  mkInterpreter false
    (snd (prologue false 1 0
            (push 4105 (push_all [15] (push 8388616 (Stack_new 65536 (fun _ => 0) 1))))))
    tt [] [].

(** The capture descriptors of a closure over the local [0]. *)
Definition example_captures : Z -> Z :=
  load_file (fun _ => 0) 4096 [1; 0; 0; 0; 0].

(** The frame that a prologue for [l] locals builds on [s] fits the
    array: the highest word it writes is the slot at the top, the lowest
    is the new top, [l + 4] words below. *)
Definition frame_fits (l : Z) (s : Stack) : Prop :=
  in_array s (gc_stack_top s - word_size * 3 - word_size * (l + 1)) /\
  in_array s (gc_stack_top s).

(** The four slots around the top are slots of the array: the slot below
    the top, the top, and the two slots above it.  These are the slots
    that a handler which only pops and pushes can write. *)
Definition around_top_in_array (s : Stack) : Prop :=
  in_array s (gc_stack_top s - word_size) /\
  in_array s (gc_stack_top s + word_size * 2).

(** A nested frame whose [BEGIN] declares a thousand arguments where the
    caller has pushed one: the main function has called from the
    bytecode address [4105], and the callee has pushed its result. *)
Definition example_overdeclared_interpreter : Interpreter unit :=
  let s := Stack_new 65536 (fun _ => 0) 1 in
  let s := snd (prologue false 2 0 s) in
  let s := push 4105 (push 15 s) in
  let s := snd (prologue false 1000 0 s) in
  let s := push 31 s in
  mkInterpreter false s tt [] [].

(** * Properties *)

(** ** Fixed-width integers *)

Lemma to_u32_range x : 0 <= to_u32 x < 2 ^ 32.
Proof. unfold to_u32. apply Z.mod_pos_bound. lia. Qed.

Lemma to_u32_small x : 0 <= x < 2 ^ 32 -> to_u32 x = x.
Proof. intros. unfold to_u32. apply Z.mod_small. lia. Qed.

Lemma to_i32_range x : - 2 ^ 31 <= to_i32 x < 2 ^ 31.
Proof.
  unfold to_i32.
  pose proof (Z.mod_pos_bound (x + 2 ^ 31) (2 ^ 32) ltac:(lia)). lia.
Qed.

Lemma to_i32_small x : - 2 ^ 31 <= x < 2 ^ 31 -> to_i32 x = x.
Proof. intros. unfold to_i32. rewrite Z.mod_small; lia. Qed.

(** Reading a [u32] word as an [int] undoes storing an [int] as a word. *)
Lemma to_i32_to_u32 x : to_i32 (to_u32 x) = to_i32 x.
Proof.
  unfold to_i32, to_u32.
  rewrite Zplus_mod_idemp_l. reflexivity.
Qed.

Lemma to_u32_to_i32 x : to_u32 (to_i32 x) = to_u32 x.
Proof.
  unfold to_i32, to_u32.
  rewrite <- Zminus_mod_idemp_l.
  rewrite Z.mod_mod by lia.
  rewrite Zminus_mod_idemp_l.
  f_equal. lia.
Qed.

Lemma shiftl1_lor1 x : Z.lor (Z.shiftl x 1) 1 = 2 * x + 1.
Proof.
  rewrite Z.shiftl_mul_pow2 by lia.
  change (2 ^ 1) with 2.
  assert (Hland : Z.land (x * 2) 1 = 0).
  { change 1 with (Z.ones 1). rewrite Z.land_ones by lia.
    change (2 ^ 1) with 2. apply Z.mod_mul. lia. }
  rewrite <- (Z.lxor_lor _ _ Hland).
  rewrite <- (Z.add_nocarry_lxor _ _ Hland).
  lia.
Qed.

Lemma BOX_eq x : - 2 ^ 30 <= x < 2 ^ 30 -> BOX x = 2 * x + 1.
Proof.
  intros H. unfold BOX.
  rewrite (to_i32_small x) by lia.
  rewrite shiftl1_lor1.
  apply to_i32_small. lia.
Qed.

Lemma UNBOX_odd x : - 2 ^ 30 <= x < 2 ^ 30 -> UNBOX (2 * x + 1) = x.
Proof.
  intros H. unfold UNBOX.
  rewrite to_i32_small by lia.
  rewrite Z.shiftr_div_pow2 by lia.
  change (2 ^ 1) with 2.
  symmetry. apply (Z.div_unique (2 * x + 1) 2 x 1); lia.
Qed.

Lemma read_u8_range (bytes : Z -> Z) (p : Z) : 0 <= read_u8 bytes p < 2 ^ 8.
Proof. unfold read_u8, to_u8. apply Z.mod_pos_bound. lia. Qed.

Lemma read_u32_range (bytes : Z -> Z) (p : Z) : 0 <= read_u32 bytes p < 2 ^ 32.
Proof.
  unfold read_u32.
  pose proof (read_u8_range bytes p).
  pose proof (read_u8_range bytes (p + 1)).
  pose proof (read_u8_range bytes (p + 2)).
  pose proof (read_u8_range bytes (p + 3)).
  lia.
Qed.

Lemma to_u32_idem x : to_u32 (to_u32 x) = to_u32 x.
Proof. apply to_u32_small. apply to_u32_range. Qed.

(** ** Stack primitives *)

(** Projections of updated records compute; arithmetic stays folded. *)
Tactic Notation "simpl_state" :=
  cbn [bp nArgs nLocals innerData begin globalsSize gc_stack_top gc_stack_bottom mem
       set_bp set_nArgs set_nLocals set_gc_stack_top set_mem
       isClosure stack runtime cout cerr
       set_stack set_isClosure print log ipush ipop poke push pop
       strPool publicSymbols bytecode globalAreaSize ip fileLine prevIP rawData ram
       set_ip set_prevIP set_fileLine data size
       fst snd negb andb orb].

Tactic Notation "simpl_state" "in" hyp(H) :=
  cbn [bp nArgs nLocals innerData begin globalsSize gc_stack_top gc_stack_bottom mem
       set_bp set_nArgs set_nLocals set_gc_stack_top set_mem
       isClosure stack runtime cout cerr
       set_stack set_isClosure print log ipush ipop poke push pop
       strPool publicSymbols bytecode globalAreaSize ip fileLine prevIP rawData ram
       set_ip set_prevIP set_fileLine data size
       fst snd negb andb orb] in H.

Lemma store_same m a v : store m a v a = v.
Proof. unfold store. rewrite Z.eqb_refl. reflexivity. Qed.

Lemma store_other m a v b : b <> a -> store m a v b = m b.
Proof. intros H. unfold store. apply Z.eqb_neq in H. rewrite H. reflexivity. Qed.

Lemma store_eq m a v b : b = a -> store m a v b = v.
Proof. intros ->. apply store_same. Qed.

Lemma fill_outside m first last v a :
  a < first \/ last <= a -> fill m first last v a = m a.
Proof.
  intros H. unfold fill.
  destruct (first <=? a) eqn:E1; destruct (a <? last) eqn:E2; try reflexivity.
  apply Z.leb_le in E1. apply Z.ltb_lt in E2. lia.
Qed.

Lemma fill_at m first last v a k :
  0 <= k /\ a = first + word_size * k /\ a < last -> fill m first last v a = v.
Proof.
  intros (Hk & -> & Hlt). unfold fill.
  replace (first <=? first + word_size * k) with true
    by (symmetry; apply Z.leb_le; unfold word_size; lia).
  replace (first + word_size * k <? last) with true
    by (symmetry; apply Z.ltb_lt; lia).
  replace (first + word_size * k - first) with (k * word_size) by lia.
  rewrite Z.mod_mul by (unfold word_size; lia). reflexivity.
Qed.

(** Reads of a memory built from stores and fills, at addresses that
    linear arithmetic tells apart. *)
Ltac mem_read :=
  repeat first
    [ rewrite store_eq by (unfold word_size in *; lia)
    | rewrite store_other by (unfold word_size in *; lia)
    | rewrite fill_outside by (unfold word_size in *; lia) ].

(** Unfolds [interpretOne] on a bytefile whose next opcode is known. *)
Ltac decode Henough Hcode :=
  unfold interpretOne;
  rewrite Henough; cbn [negb];
  unfold getNextCode; simpl_state;
  rewrite Hcode; cbv beta iota zeta.

Lemma top_push v s : top (push v s) = v.
Proof.
  unfold top. simpl_state.
  replace (gc_stack_top s - word_size + word_size * 1) with (gc_stack_top s)
    by (unfold word_size; lia).
  apply store_same.
Qed.

(** ** Boxing *)

Lemma land_odd_1 x : Z.land (2 * x + 1) 1 = 1.
Proof.
  change 1 with (Z.ones 1) at 2. rewrite Z.land_ones by lia.
  change (2 ^ 1) with 2.
  rewrite Z.add_comm, Z.mul_comm, Z.mod_add by lia. reflexivity.
Qed.

Lemma UNBOX_word_of_BOX n : - 2 ^ 30 <= n < 2 ^ 30 -> UNBOX (to_usize (BOX n)) = n.
Proof.
  intros H. unfold UNBOX, to_usize.
  change (BOX n mod 2 ^ 32) with (to_u32 (BOX n)).
  rewrite to_i32_to_u32.
  rewrite BOX_eq by lia.
  apply UNBOX_odd. lia.
Qed.

(** C8. For every integer [n] of the 31-bit signed range,
    [UNBOX(BOX(n))] is [n] and the low bit of [BOX(n)] is set; this also
    holds for the word that [onConst] pushes, which is [BOX(n)] stored as
    a [usize].  [UNBOX] is an arithmetic shift: it is the floor of half
    the word read as a signed integer, so the sign of [n] comes back. *)
Theorem box_unbox_roundtrip (n : Z) :
  - 2 ^ 30 <= n < 2 ^ 30 ->
  UNBOX (BOX n) = n /\
  Z.land (BOX n) 1 = 1 /\
  UNBOX (to_usize (BOX n)) = n /\
  Z.land (to_usize (BOX n)) 1 = 1 /\
  (forall w, UNBOX w = to_i32 w / 2) /\
  (n < 0 <-> UNBOX (BOX n) < 0) /\
  (forall (R : Type) (RT : Runtime R) (i : Interpreter R),
      enoughToPush 1 (stack i) = true ->
      fst (onConst n i) = CONTINUE /\
      UNBOX (top (stack (snd (onConst n i)))) = n).
Proof.
  intros H.
  assert (Hbox : BOX n = 2 * n + 1) by (apply BOX_eq; lia).
  assert (Hun : UNBOX (BOX n) = n) by (rewrite Hbox; apply UNBOX_odd; lia).
  assert (Hword : to_usize (BOX n) = (2 * n + 1) mod 2 ^ 32)
    by (unfold to_usize; rewrite Hbox; reflexivity).
  repeat split.
  - exact Hun.
  - rewrite Hbox. apply land_odd_1.
  - apply UNBOX_word_of_BOX. lia.
  - rewrite Hword.
    change 1 with (Z.ones 1) at 2. rewrite Z.land_ones by lia.
    change (2 ^ 1) with 2.
    rewrite Z.mod_mod_divide by (exists (2 ^ 31); reflexivity).
    rewrite Z.add_comm, Z.mul_comm, Z.mod_add by lia. reflexivity.
  - intros w. unfold UNBOX. rewrite Z.shiftr_div_pow2 by lia. reflexivity.
  - rewrite Hun. trivial.
  - rewrite Hun. trivial.
  - unfold onConst. rewrite H0. reflexivity.
  - unfold onConst. rewrite H0. simpl_state.
    rewrite top_push.
    apply UNBOX_word_of_BOX. lia.
Qed.

Lemma box_unbox_roundtrip_witness :
  UNBOX (BOX (-5)) = -5 /\ Z.land (BOX (-5)) 1 = 1.
Proof.
  destruct (box_unbox_roundtrip (-5) ltac:(lia)) as (H1 & H2 & _).
  split; [exact H1 | exact H2].
Defined.

(** ** References to globals *)

(** C9. [getReference] accepts the global index [globalsSize] itself, and
    the address it returns for it, [begin + 1 + globalsSize], is the
    address one past the last word of the backing array: it is not a slot
    of the array.  Every smaller index does resolve to a slot. *)
Theorem getReference_global_past_the_end (array : Z) (m : Mem) (g : Z) :
  let s := Stack_new array m g in
  getReference g Global s = Some (array + word_size * MAX_STACK_SIZE) /\
  ~ in_array s (array + word_size * MAX_STACK_SIZE) /\
  (forall index, 0 <= index < g -> g <= MAX_STACK_SIZE ->
     exists p, getReference index Global s = Some p /\ in_array s p).
Proof.
  intros s. subst s. unfold Stack_new, getReference, in_array.
  change (Global =? Global) with true. cbv iota. simpl_state.
  split; [| split].
  - rewrite Z.ltb_irrefl. f_equal. unfold word_size. lia.
  - unfold word_size, MAX_STACK_SIZE. lia.
  - intros index Hi Hg.
    replace (g <? index) with false by (symmetry; apply Z.ltb_ge; lia).
    eexists. split; [reflexivity |].
    unfold word_size, MAX_STACK_SIZE in *. lia.
Qed.

(** ** Prologue and epilogue *)

Lemma to_u32_UNBOX_BOX n : 0 <= n < 2 ^ 30 -> to_u32 (UNBOX (to_usize (BOX n))) = n.
Proof.
  intros H. rewrite UNBOX_word_of_BOX by lia. apply to_u32_small. lia.
Qed.

Lemma prologue_eq (beginInClosure : bool) (a l : Z) (s : Stack) :
  enoughToPush (satAdd 4 l) s = true ->
  prologue beginInClosure a l s =
  (true,
   mkStack (gc_stack_top s - word_size - word_size - word_size + word_size * 1)
           a l (innerData s) (begin s) (globalsSize s)
           (gc_stack_top s - word_size - word_size - word_size
            - word_size * to_u32 (l + 1))
           (gc_stack_bottom s)
           (fill (store (store (store (mem s) (gc_stack_top s)
                                      (to_usize (BOX (nArgs s))))
                               (gc_stack_top s - word_size)
                               (to_usize (BOX (nLocals s))))
                        (gc_stack_top s - word_size - word_size) (bp s))
                 (gc_stack_top s - word_size - word_size - word_size
                  - word_size * to_u32 (l + 1))
                 (gc_stack_top s - word_size - word_size - word_size
                  - word_size * to_u32 (l + 1) + word_size * l + word_size * 2)
                 (to_usize (BOX 0)))).
Proof.
  intros H. unfold prologue. rewrite H. reflexivity.
Qed.

Lemma frame_fits_bound (l : Z) (s : Stack) : frame_fits l s -> l < 2 ^ 32 - 1.
Proof.
  unfold frame_fits, in_array, word_size, MAX_STACK_SIZE. intros [H1 H2]. lia.
Qed.

(** Bounds of a closed example, by computation. *)
Ltac in_array_example :=
  unfold frame_fits, around_top_in_array, in_array; vm_compute;
  repeat split; first [reflexivity | discriminate].

(** C1 (amended). Let [s0] be a stack state in which the return address
    has just been pushed on top of [a] argument words, all of them in
    the array, let the frame of [prologue(_, a, l)] fit the array, and
    let the guards of the prologue and of the [epilogue] that follows it
    pass.  Then [epilogue] returns that return
    address and leaves the stack differing from the state before the call
    only by the [a] argument words having been consumed, together with
    one further word (the closure pointer beneath them) when [epilogue]
    is called with [isClosure] set, and by one return value, the [BOX(0)]
    of the scratch slot, having been pushed; [bp] is restored, and
    [nArgs] and [nLocals] are restored when their values before the
    prologue are below [2^30], the range in which a value survives being
    saved boxed. *)
Theorem prologue_epilogue_frame_effect
        (s0 : Stack) (beginInClosure isClosure : bool) (a l : Z) :
  0 <= a ->
  0 <= l ->
  frame_fits l s0 ->
  in_array s0 (gc_stack_top s0 + word_size
               + word_size * (a + (if isClosure then 1 else 0))) ->
  enoughToPush (satAdd 4 l) s0 = true ->
  enoughToPop (satAdd (5 + (if isClosure then 1 else 0)) a)
              (snd (prologue beginInClosure a l s0)) = true ->
  let s2 := snd (epilogue isClosure (snd (prologue beginInClosure a l s0))) in
  let consumed := a + (if isClosure then 1 else 0) in
  fst (prologue beginInClosure a l s0) = true /\
  fst (epilogue isClosure (snd (prologue beginInClosure a l s0)))
  = mem s0 (gc_stack_top s0 + word_size) /\
  top s2 = to_usize (BOX 0) /\
  gc_stack_top s2 = gc_stack_top s0 + word_size + word_size * consumed - word_size /\
  (forall addr, gc_stack_top s2 + word_size < addr -> mem s2 addr = mem s0 addr) /\
  bp s2 = bp s0 /\
  (0 <= nArgs s0 < 2 ^ 30 -> nArgs s2 = nArgs s0) /\
  (0 <= nLocals s0 < 2 ^ 30 -> nLocals s2 = nLocals s0) /\
  (0 <= nArgs s0 < 2 ^ 30 -> 0 <= nLocals s0 < 2 ^ 30 -> call_effect consumed s0 s2).
Proof.
  intros Ha Hl0 Hfits Hwords Hpush Hpop s2 consumed. subst s2 consumed.
  pose proof (frame_fits_bound l s0 Hfits) as Hl1.
  assert (Hl : 0 <= l < 2 ^ 32 - 1) by lia.
  clear Hl0 Hl1 Hfits Hwords.
  rewrite (prologue_eq _ _ _ _ Hpush) in *. cbn [fst snd] in *.
  split; [reflexivity |].
  unfold epilogue. cbv zeta. cbn [nArgs]. rewrite Hpop. cbv iota. clear Hpop.
  rewrite (to_u32_small (l + 1)) by lia.
  destruct isClosure; simpl_state; unfold call_effect, top; simpl_state;
    repeat match goal with
           | |- _ /\ _ => split
           | |- forall _, _ => intro
           end;
    mem_read;
    first [ reflexivity
          | apply to_u32_UNBOX_BOX; lia
          | apply (fill_at _ _ _ _ _ 1); unfold word_size; lia
          | f_equal; unfold word_size; lia
          | unfold word_size; lia ].
Qed.

Lemma prologue_epilogue_frame_effect_witness :
  call_effect 2 example_call_site
              (snd (epilogue false (snd (prologue false 2 1 example_call_site)))).
Proof.
  refine (proj2 (proj2 (proj2 (proj2 (proj2 (proj2 (proj2 (proj2
    (prologue_epilogue_frame_effect example_call_site false false 2 1 _ _ _ _ _ _))))))))
    _ _).
  - lia.
  - lia.
  - in_array_example.
  - in_array_example.
  - vm_compute. reflexivity.
  - vm_compute. reflexivity.
  - vm_compute. split; [discriminate | reflexivity].
  - vm_compute. split; [discriminate | reflexivity].
Defined.

(** C1 as stated fails.  With [isClosure] set the epilogue consumes one
    word more than the [a] arguments; and a caller whose [nArgs] is
    [2^30] does not get it back.  In both examples the arguments and the
    return address are on the stack and both guards pass. *)
Lemma frame_effect_counterexample :
  (enoughToPop (1 + 1) example_closure_call_site = true /\
   fst (prologue true 1 0 example_closure_call_site) = true /\
   enoughToPop (satAdd (5 + 1) 1) (snd (prologue true 1 0 example_closure_call_site)) = true /\
   ~ call_effect 1 example_closure_call_site
       (snd (epilogue true (snd (prologue true 1 0 example_closure_call_site))))) /\
  (enoughToPop (0 + 1) example_wide_call_site = true /\
   fst (prologue false 0 0 example_wide_call_site) = true /\
   enoughToPop (satAdd 5 0) (snd (prologue false 0 0 example_wide_call_site)) = true /\
   ~ call_effect 0 example_wide_call_site
       (snd (epilogue false (snd (prologue false 0 0 example_wide_call_site))))).
Proof.
  split; (split; [vm_compute; reflexivity |]);
    (split; [vm_compute; reflexivity |]);
    (split; [vm_compute; reflexivity |]).
  - intros (H & _). vm_compute in H. discriminate.
  - intros (_ & _ & _ & H & _). vm_compute in H. discriminate.
Qed.

(** ** The bytefile reader *)

(** C2. On the twenty-byte file [oversized_pool_file] the reader reports
    no diagnostic: the sums of its two size checks wrap around [2^32],
    and so does the bytecode size, which comes out as [8].  The bytefile
    it returns has a public-symbols view of sixteen bytes from offset 12
    and a string-pool view of [0xFFFFFFF0] bytes from offset 28; neither
    lies inside the buffer, although header, public symbols and string
    pool together exceed the file size. *)
Theorem readBytefile_accepts_oversized_pool :
  readBytefile (load_file (fun _ => 0) 4096 oversized_pool_file) 4096 20
  = inr oversized_pool_bytefile /\
  20 <= 12 + 8 * 2 + 0xFFFFFFF0 /\
  ~ span_inside 4 (publicSymbols oversized_pool_bytefile) 4096 20 /\
  ~ span_inside 1 (strPool oversized_pool_bytefile) 4096 20 /\
  ~ views_inside oversized_pool_bytefile 4096 20.
Proof.
  split; [vm_compute; reflexivity |].
  unfold views_inside, span_inside, oversized_pool_bytefile.
  cbn [publicSymbols strPool bytecode data size].
  repeat split; lia.
Qed.

(** X3. Where no sum wraps, that is for a header whose sizes satisfy
    [12 + 8 * pairs + pool < 2^32], the reader does what is expected of
    it: it fails when header, public symbols and string pool meet or
    exceed the file size, and otherwise returns three views that lie
    inside the buffer, do not overlap, and end with the file. *)
Lemma readBytefile_without_wrap (bytes : Z -> Z) (ptr F : Z) :
  let s := read_u32 bytes ptr in
  let p := read_u32 bytes (ptr + 2 * 4) in
  0 <= F < 2 ^ 32 ->
  12 + 8 * p + s < 2 ^ 32 ->
  (F <= 12 + 8 * p + s ->
   exists errs, readBytefile bytes ptr F = inl errs) /\
  (12 + 8 * p + s < F ->
   exists b, readBytefile bytes ptr F = inr b /\
             views_inside b ptr F /\ views_disjoint b /\
             data (bytecode b) + size (bytecode b) = ptr + F).
Proof.
  intros s p HF Hsum.
  pose proof (read_u32_range bytes ptr) as Hs. fold s in Hs.
  pose proof (read_u32_range bytes (ptr + 2 * 4)) as Hp. fold p in Hp.
  unfold readBytefile. fold s. fold p.
  unfold to_usize.
  change (to_u32 (3 * 4)) with 12.
  change (s mod 2 ^ 32) with (to_u32 s). rewrite (to_u32_small s) by lia.
  change (p mod 2 ^ 32) with (to_u32 p). rewrite (to_u32_small p) by lia.
  rewrite !(to_u32_small (p * 2)) by lia.
  change (p * 2 mod 2 ^ 32) with (to_u32 (p * 2)). rewrite (to_u32_small (p * 2)) by lia.
  rewrite !(to_u32_small (p * 2 + 12)) by lia.
  rewrite !(to_u32_small (s + p * 2)) by lia.
  rewrite !(to_u32_small (s + p * 2 + 12)) by lia.
  change (p * 2 * 4 mod 2 ^ 32) with (to_u32 (p * 2 * 4)). rewrite (to_u32_small (p * 2 * 4)) by lia.
  split; intros HFs.
  - destruct (F <=? p * 2 + 12) eqn:E1; destruct (F <=? s + p * 2 + 12) eqn:E2;
      cbn [size data empty_span app];
      try (match goal with
           | |- context [if ?c then _ else _] => destruct c
           end; eexists; reflexivity).
    apply Z.leb_gt in E1, E2.
    change ((p * 2 * 4) mod 2 ^ 32) with (to_u32 (p * 2 * 4)).
    rewrite (to_u32_small (p * 2 * 4)) by lia.
    assert (Hbc : (F - p * 2 * 4 - s - 12) mod 2 ^ 32 = 0 \/
                  F <= (F - p * 2 * 4 - s - 12) mod 2 ^ 32).
    { destruct (Z.eq_dec F (12 + 8 * p + s)) as [-> | Hne].
      - left. replace (12 + 8 * p + s - p * 2 * 4 - s - 12) with 0 by lia. reflexivity.
      - right.
        replace (F - p * 2 * 4 - s - 12)
          with (F - p * 2 * 4 - s - 12 + 2 ^ 32 + (-1) * 2 ^ 32) by lia.
        rewrite Z.mod_add by lia. rewrite Z.mod_small by lia. lia. }
    replace (((F - p * 2 * 4 - s - 12) mod 2 ^ 32 =? 0)
             || (F <=? (F - p * 2 * 4 - s - 12) mod 2 ^ 32)) with true.
    + eexists. reflexivity.
    + symmetry. apply orb_true_iff.
      destruct Hbc as [H0 | H1]; [left; apply Z.eqb_eq | right; apply Z.leb_le]; assumption.
  - replace (F <=? p * 2 + 12) with false by (symmetry; apply Z.leb_gt; lia).
    replace (F <=? s + p * 2 + 12) with false by (symmetry; apply Z.leb_gt; lia).
    cbn [size data].
    change ((p * 2 * 4) mod 2 ^ 32) with (to_u32 (p * 2 * 4)).
    rewrite (to_u32_small (p * 2 * 4)) by lia.
    rewrite (Z.mod_small (F - p * 2 * 4 - s - 12)) by lia.
    replace (F - p * 2 * 4 - s - 12 =? 0) with false by (symmetry; apply Z.eqb_neq; lia).
    replace (F <=? F - p * 2 * 4 - s - 12) with false by (symmetry; apply Z.leb_gt; lia).
    cbn [orb].
    eexists. split; [reflexivity |].
    unfold views_inside, views_disjoint, span_inside, spans_disjoint.
    cbn [publicSymbols strPool bytecode data size].
    repeat split; lia.
Qed.

(** ** Operand fetches of the decoder *)

(** C3. Five opcodes fetch an operand without asking whether the bytes
    are there.  On a bytecode that ends right after the opcode [LINE],
    [ARRAY] or [CALL_Barray], after the string index of [TAG], or after
    the count of [CLOSURE], the decoder reports no error of its own: it
    reads the operand from beyond the buffer and leaves the instruction
    pointer past its end.  For [LINE] the step returns [CONTINUE], and the
    check for the next opcode passes too, since its subtraction wraps.
    This holds whatever the runtime, the interpreter state and the memory
    around the buffer are. *)
Theorem operand_fetch_past_the_end
        (R : Type) (RT : Runtime R) (around : Z -> Z) (i : Interpreter R) :
  (exists b',
      interpretOne (bytefile_of_code around [0x5A]) i = Some (CONTINUE, b', i) /\
      ip b' = 4096 + 5 /\
      data (bytecode b') + size (bytecode b') = 4096 + 1 /\
      enoughBytes 1 b' = true) /\
  (exists r b' i',
      interpretOne (bytefile_of_code around [0x58]) i = Some (r, b', i') /\
      ip b' = 4096 + 5 /\
      data (bytecode b') + size (bytecode b') = 4096 + 1) /\
  (exists r b' i',
      interpretOne (bytefile_of_code around [0x74]) i = Some (r, b', i') /\
      ip b' = 4096 + 5 /\
      data (bytecode b') + size (bytecode b') = 4096 + 1) /\
  (exists r b' i',
      interpretOne (bytefile_with_pool around [0x57; 0; 0; 0; 0]) i = Some (r, b', i') /\
      ip b' = 4096 + 9 /\
      data (bytecode b') + size (bytecode b') = 4096 + 5) /\
  (exists r b' i',
      interpretOne (bytefile_of_code around [0x54; 0; 0; 0; 0; 3; 0; 0; 0]) i
      = Some (r, b', i') /\
      ip b' = 4096 + 9 + 5 * 3 /\
      data (bytecode b') + size (bytecode b') = 4096 + 9).
Proof.
  repeat split.
  - eexists. split; [reflexivity |]. repeat split; reflexivity.
  - do 3 eexists. split; [reflexivity |]. split; reflexivity.
  - do 3 eexists. split; [reflexivity |]. split; reflexivity.
  - do 3 eexists. split; [reflexivity |]. split; reflexivity.
  - do 3 eexists. split; [reflexivity |]. split; reflexivity.
Qed.

(** ** Bounds checks before pushes *)

Lemma pop_into_zero {R : Type} (contents : Z) (i : Interpreter R) :
  pop_into contents (Z.to_nat 0) i = i.
Proof. reflexivity. Qed.

Lemma enoughToPop_zero (s : Stack) : enoughToPop 0 s = true.
Proof.
  unfold enoughToPop. apply Z.leb_le.
  apply (to_u32_range (ptrdiff (begin s) (gc_stack_top s))).
Qed.

Lemma onSexp_zero {R : Type} {RT : Runtime R} (tag : Z) (i : Interpreter R) :
  exists v s1 i',
    onSexp tag 0 i = (CONTINUE, i') /\
    stack i' = push v s1 /\
    gc_stack_top s1 = gc_stack_top (stack i) /\
    innerData s1 = innerData (stack i).
Proof.
  unfold onSexp, rt.
  rewrite enoughToPop_zero. cbn [negb].
  destruct (alloc_sexp (to_i32 0) (runtime i) (mem (stack i))) as [[v1 r1] m1].
  rewrite pop_into_zero. simpl_state.
  destruct (LtagHash tag r1 (store m1 (v1 + sexp_tag) 0)) as [[v2 r2] m2].
  do 3 eexists. split; [reflexivity |]. simpl_state.
  split; [reflexivity |]. simpl_state. split; reflexivity.
Qed.

Lemma onCallBArray_zero {R : Type} {RT : Runtime R} (i : Interpreter R) :
  exists v s1 i',
    onCallBArray 0 i = (CONTINUE, i') /\
    stack i' = push v s1 /\
    gc_stack_top s1 = gc_stack_top (stack i) /\
    innerData s1 = innerData (stack i).
Proof.
  unfold onCallBArray, rt.
  rewrite enoughToPop_zero. cbn [negb].
  destruct (alloc_array (to_i32 0) (runtime i) (mem (stack i))) as [[v1 r1] m1].
  rewrite pop_into_zero.
  do 3 eexists. split; [reflexivity |]. simpl_state.
  split; [reflexivity |]. simpl_state. split; reflexivity.
Qed.

(** The stack of a program with [99998] globals is born full: its top is
    one word below the backing array. *)
Lemma Stack_new_full (array : Z) (m : Mem) :
  gc_stack_top (Stack_new array m 99998) = array - word_size /\
  innerData (Stack_new array m 99998) = array /\
  ~ in_array (Stack_new array m 99998) (gc_stack_top (Stack_new array m 99998)) /\
  enoughToPush 1 (Stack_new array m 99998) = true.
Proof.
  unfold Stack_new, in_array, enoughToPush, ptrdiff. simpl_state.
  repeat split.
  - unfold word_size, MAX_STACK_SIZE. lia.
  - unfold word_size, MAX_STACK_SIZE. lia.
  - replace (array -
             (array + word_size * MAX_STACK_SIZE - word_size * 1
              - word_size * 99998 - word_size - word_size))
      with (1 * word_size) by (unfold word_size, MAX_STACK_SIZE; lia).
    rewrite Z.div_mul by (unfold word_size; lia). reflexivity.
Qed.

Lemma interpretOne_SEXP {R : Type} {RT : Runtime R}
      (b b1 : Bytefile) (i : Interpreter R) (tag : Z) :
  enoughBytes 1 b = true ->
  read_u8 (ram b) (ip b) = 0x12 ->
  getNextString (after_opcode b) = (Some tag, b1) ->
  enoughBytes 4 b1 = true ->
  interpretOne b i =
  returned (snd (getNextUnsigned b1)) (onSexp tag (fst (getNextUnsigned b1)) i).
Proof.
  intros Henough Hcode Htag Hoperand.
  unfold after_opcode in Htag.
  decode Henough Hcode. rewrite Htag. rewrite Hoperand. cbn [negb].
  destruct (getNextUnsigned b1). reflexivity.
Qed.

(** C7. [onSexp] and [onCallBArray] with [n = 0] push their result with
    no check at all: whatever the stack state, the step returns
    [CONTINUE] and its last action is a push at the current top.  The
    stack of a program with [99998] globals starts with its top one word
    below the backing array; there even [enoughToPush(1)] answers [true],
    because it subtracts the top from the start of the array and not the
    other way round.  So the file [sexp_file], which the reader accepts
    and whose only instruction is [SEXP "t" 0], makes the first step of
    the interpreter write outside the array and continue.  This holds
    whatever the runtime is. *)
Theorem push_without_room (R : Type) (RT : Runtime R) :
  (forall (tag : Z) (i : Interpreter R),
      exists v s1 i',
        onSexp tag 0 i = (CONTINUE, i') /\
        stack i' = push v s1 /\
        gc_stack_top s1 = gc_stack_top (stack i) /\
        innerData s1 = innerData (stack i)) /\
  (forall (i : Interpreter R),
      exists v s1 i',
        onCallBArray 0 i = (CONTINUE, i') /\
        stack i' = push v s1 /\
        gc_stack_top s1 = gc_stack_top (stack i) /\
        innerData s1 = innerData (stack i)) /\
  (forall (array : Z) (m : Mem) (r : R),
      let i := Interpreter_new array m r 99998 in
      gc_stack_top (stack i) = array - word_size /\
      innerData (stack i) = array /\
      ~ in_array (stack i) (gc_stack_top (stack i)) /\
      enoughToPush 1 (stack i) = true) /\
  readBytefile (load_file (fun _ => 0) 4096 sexp_file) 4096 23 = inr sexp_bytefile /\
  (forall (array : Z) (m : Mem) (r : R),
      exists v s1 b' i',
        interpretOne sexp_bytefile
                     (Interpreter_new array m r (globalAreaSize sexp_bytefile))
        = Some (CONTINUE, b', i') /\
        stack i' = push v s1 /\
        gc_stack_top s1 = array - word_size /\
        innerData s1 = array /\
        ~ in_array s1 (gc_stack_top s1)).
Proof.
  split; [| split; [| split; [| split]]].
  - intros tag i. apply onSexp_zero.
  - intros i. apply onCallBArray_zero.
  - intros array m r i. subst i. apply Stack_new_full.
  - vm_compute. reflexivity.
  - intros array m r.
    rewrite (interpretOne_SEXP sexp_bytefile
               (set_ip (4096 + 19) (after_opcode sexp_bytefile)) _ (4096 + 12));
      [ | vm_compute; reflexivity ..].
    change (fst (getNextUnsigned (set_ip (4096 + 19) (after_opcode sexp_bytefile))))
      with 0.
    change (globalAreaSize sexp_bytefile) with 99998.
    destruct (onSexp_zero (4096 + 12) (Interpreter_new array m r 99998))
      as (v & s1 & i' & Hstep & Hstack & Htop & Harr).
    destruct (Stack_new_full array m) as (Htop0 & Harr0 & _).
    exists v, s1. do 2 eexists. rewrite Hstep. unfold returned. cbn [fst snd].
    split; [reflexivity |]. split; [exact Hstack |].
    cbn [stack Interpreter_new] in Htop, Harr.
    rewrite Htop0 in Htop. rewrite Harr0 in Harr.
    split; [exact Htop |]. split; [exact Harr |].
    unfold in_array. rewrite Htop, Harr. unfold word_size. lia.
Qed.

(** ** END and RET *)

Lemma epilogue_fst (c : bool) (s : Stack) :
  fst (epilogue c s) =
  if enoughToPop (satAdd (5 + (if c then 1 else 0)) (nArgs s)) s
  then saved_return_address s else 0.
Proof.
  unfold epilogue, saved_return_address. cbv zeta.
  destruct (enoughToPop _ s); cbn [negb]; [| reflexivity].
  destruct c; simpl_state; f_equal; unfold word_size; lia.
Qed.

Lemma onEndOrRet_fst {R : Type} (i : Interpreter R) :
  fst (onEndOrRet i) =
  if bp (stack i) =? begin (stack i) - word_size then 0
  else fst (epilogue (isClosure i) (stack i)).
Proof.
  unfold onEndOrRet, stackBegin.
  replace (word_size * 1) with word_size by reflexivity.
  destruct (bp (stack i) =? begin (stack i) - word_size); cbn [negb].
  - reflexivity.
  - destruct (epilogue (isClosure i) (stack i)). reflexivity.
Qed.

Lemma onEndOrRet_isClosure {R : Type} (i : Interpreter R) :
  isClosure (snd (onEndOrRet i)) = false.
Proof.
  unfold onEndOrRet.
  destruct (negb _); [destruct (epilogue _ _) |]; reflexivity.
Qed.

Lemma interpretOne_END {R : Type} {RT : Runtime R} (b : Bytefile) (i : Interpreter R) :
  enoughBytes 1 b = true ->
  read_u8 (ram b) (ip b) = 0x16 \/ read_u8 (ram b) (ip b) = 0x17 ->
  interpretOne b i =
  Some (if fst (onEndOrRet i) =? 0 then STOP else CONTINUE,
        set_ip (fst (onEndOrRet i)) (after_opcode b),
        snd (onEndOrRet i)).
Proof.
  intros Henough [Hcode | Hcode]; decode Henough Hcode;
    destruct (onEndOrRet i) as [nextCode i']; cbn [fst snd];
    destruct (nextCode =? 0); reflexivity.
Qed.

(** The return address that a call pushes is found by the callee's
    prologue in the slot [bp + 3]. *)
Lemma prologue_saves_return_address (c : bool) (a l ra : Z) (s : Stack) :
  0 <= l < 2 ^ 32 - 1 ->
  fst (prologue c a l (push ra s)) = true ->
  saved_return_address (snd (prologue c a l (push ra s))) = ra.
Proof.
  intros Hl H. unfold prologue in *.
  destruct (enoughToPush (satAdd 4 l) (push ra s)); cbn [negb fst snd] in *;
    [| discriminate].
  unfold saved_return_address. simpl_state.
  rewrite (to_u32_small (l + 1)) by lia.
  mem_read. reflexivity.
Qed.




(** ** Conditional jumps *)



(** ** Binary operators *)

Lemma UNBOX_range w : - 2 ^ 30 <= UNBOX w < 2 ^ 30.
Proof.
  unfold UNBOX. rewrite Z.shiftr_div_pow2 by lia. change (2 ^ 1) with 2.
  pose proof (to_i32_range w) as H.
  split.
  - apply Z.div_le_lower_bound; lia.
  - apply Z.div_lt_upper_bound; lia.
Qed.

Lemma interpretOne_BINOP {R : Type} {RT : Runtime R}
      (b : Bytefile) (i : Interpreter R) (operation : Z) :
  enoughBytes 1 b = true ->
  read_u8 (ram b) (ip b) = operation ->
  1 <= operation <= 13 ->
  interpretOne b i =
  match onBinOp operation i with
  | None => None
  | Some r => returned (after_opcode b) r
  end.
Proof.
  intros Henough Hcode Hop.
  assert (Hcases : operation = 1 \/ operation = 2 \/ operation = 3 \/ operation = 4 \/
                   operation = 5 \/ operation = 6 \/ operation = 7 \/ operation = 8 \/
                   operation = 9 \/ operation = 10 \/ operation = 11 \/
                   operation = 12 \/ operation = 13) by lia.
  decompose [or] Hcases; clear Hcases;
    match goal with H : operation = _ |- _ => rewrite H in * end;
    decode Henough Hcode; reflexivity.
Qed.

Lemma onBinOp_pushes {R : Type} {RT : Runtime R}
      (operation : Z) (i : Interpreter R) (result : Z) :
  enoughToPop 2 (stack i) = true ->
  binop operation (UNBOX (fst (pop (snd (pop (stack i))))))
        (UNBOX (fst (pop (stack i)))) = Some result ->
  onBinOp operation i =
  Some (CONTINUE,
        set_stack (push (to_usize (BOX result)) (snd (pop (snd (pop (stack i)))))) i).
Proof.
  intros Hpop Hres. unfold onBinOp. rewrite Hpop. cbn [negb].
  simpl_state. simpl_state in Hres. rewrite Hres. reflexivity.
Qed.

Lemma quot_small l r :
  - 2 ^ 30 <= l < 2 ^ 30 -> r <> 0 -> - 2 ^ 31 <= Z.quot l r < 2 ^ 31.
Proof.
  intros Hl Hr.
  rewrite Z.quot_div by assumption.
  assert (Hq : 0 <= Z.abs l / Z.abs r <= Z.abs l).
  { split.
    - apply Z.div_pos; lia.
    - apply Z.div_le_upper_bound; nia. }
  destruct (Z.sgn_spec l) as [[? ->] | [[? ->] | [? ->]]];
    destruct (Z.sgn_spec r) as [[? ->] | [[? ->] | [? ->]]]; lia.
Qed.

Lemma rem_small l r :
  - 2 ^ 30 <= r < 2 ^ 30 -> r <> 0 -> - 2 ^ 31 <= Z.rem l r < 2 ^ 31.
Proof.
  intros Hr Hnz. pose proof (Z.rem_bound_abs l r Hnz). lia.
Qed.

(** C4. When the opcode at the instruction pointer is one of the thirteen
    [BINOP]s and the stack holds two values, the step pops the right
    operand first and the left operand second, unboxes both and pushes
    [BOX] of the result in their place.  Sums and differences are exact;
    a product wraps to 32 bits; quotient and remainder truncate towards
    zero, and are not defined for a zero divisor.  A comparison yields
    [1] when it holds and [0] when it does not, and these come back
    unchanged from the pushed word; [and] and [or] yield [0] or [1] with
    every operand other than [0] counting as true. *)
Theorem binop_step
        (R : Type) (RT : Runtime R) (b : Bytefile) (i : Interpreter R) (operation : Z) :
  enoughBytes 1 b = true ->
  read_u8 (ram b) (ip b) = operation ->
  1 <= operation <= 13 ->
  enoughToPop 2 (stack i) = true ->
  let rhs := UNBOX (fst (pop (stack i))) in
  let lhs := UNBOX (fst (pop (snd (pop (stack i))))) in
  ~ ((operation = BinOp.DIV \/ operation = BinOp.REM) /\ rhs = 0) ->
  exists result,
    interpretOne b i =
    Some (CONTINUE, after_opcode b,
          set_stack (push (to_usize (BOX result)) (snd (pop (snd (pop (stack i)))))) i) /\
    (operation = BinOp.ADD -> result = lhs + rhs) /\
    (operation = BinOp.SUB -> result = lhs - rhs) /\
    (operation = BinOp.MUL -> result = to_i32 (lhs * rhs)) /\
    (operation = BinOp.DIV -> result = Z.quot lhs rhs) /\
    (operation = BinOp.REM -> result = Z.rem lhs rhs) /\
    (operation = BinOp.LT -> (result = 1 <-> lhs < rhs)) /\
    (operation = BinOp.LE -> (result = 1 <-> lhs <= rhs)) /\
    (operation = BinOp.GT -> (result = 1 <-> lhs > rhs)) /\
    (operation = BinOp.GE -> (result = 1 <-> lhs >= rhs)) /\
    (operation = BinOp.EQ -> (result = 1 <-> lhs = rhs)) /\
    (operation = BinOp.NE -> (result = 1 <-> lhs <> rhs)) /\
    (operation = BinOp.AND -> (result = 1 <-> lhs <> 0 /\ rhs <> 0)) /\
    (operation = BinOp.OR -> (result = 1 <-> lhs <> 0 \/ rhs <> 0)) /\
    (BinOp.LT <= operation <= BinOp.OR ->
     (result = 0 \/ result = 1) /\ UNBOX (to_usize (BOX result)) = result).
Proof.
  intros Henough Hcode Hop Hpop rhs lhs Hdiv.
  rewrite (interpretOne_BINOP b i operation Henough Hcode Hop).
  pose proof (UNBOX_range (fst (pop (stack i)))) as Hr.
  pose proof (UNBOX_range (fst (pop (snd (pop (stack i)))))) as Hlr.
  fold rhs in Hr. fold lhs in Hlr.
  assert (Hbit : forall c : bool,
             (bool_to_int c = 0 \/ bool_to_int c = 1) /\
             UNBOX (to_usize (BOX (bool_to_int c))) = bool_to_int c).
  { intros []; split; auto; apply UNBOX_word_of_BOX; cbn; lia. }
  assert (Hone : forall c : bool, bool_to_int c = 1 <-> c = true).
  { intros []; cbn; split; intros; try reflexivity; try discriminate. }
  assert (Hcases : operation = 1 \/ operation = 2 \/ operation = 3 \/ operation = 4 \/
                   operation = 5 \/ operation = 6 \/ operation = 7 \/ operation = 8 \/
                   operation = 9 \/ operation = 10 \/ operation = 11 \/
                   operation = 12 \/ operation = 13) by lia.
  assert (Hltb : forall x y, (x >? y) = (y <? x)) by (intros; apply Z.gtb_ltb).
  assert (Hgeb : forall x y, (x >=? y) = (y <=? x)) by (intros; apply Z.geb_leb).
  decompose [or] Hcases; clear Hcases;
    match goal with H : operation = _ |- _ => rewrite H in * end;
    try (destruct (rhs =? 0) eqn:Hzero;
         [ exfalso; apply Hdiv; apply Z.eqb_eq in Hzero;
           split; [ first [left; reflexivity | right; reflexivity] | exact Hzero ]
         | ]);
    (eexists; split;
     [ erewrite onBinOp_pushes;
       [ reflexivity
       | exact Hpop
       | unfold binop; fold rhs; fold lhs; cbn [Z.eqb Pos.eqb BinOp.ADD BinOp.SUB
           BinOp.MUL BinOp.DIV BinOp.REM BinOp.LT BinOp.LE BinOp.GT BinOp.GE
           BinOp.EQ BinOp.NE BinOp.AND BinOp.OR];
         try rewrite Hzero; reflexivity ]
     | ]);
    unfold BinOp.ADD, BinOp.SUB, BinOp.MUL, BinOp.DIV, BinOp.REM, BinOp.LT, BinOp.LE,
      BinOp.GT, BinOp.GE, BinOp.EQ, BinOp.NE, BinOp.AND, BinOp.OR;
    repeat match goal with
           | |- _ /\ _ => split
           | |- _ = _ -> _ => intros Hk; try discriminate Hk; clear Hk
           | |- _ <= _ <= _ -> _ => intros Hk; try (exfalso; lia); clear Hk
           end.
  all: try reflexivity.
  all: try (apply Hbit).
  all: try (apply to_i32_small; lia).
  all: try (rewrite Hone).
  - apply to_i32_small. apply quot_small; [lia | apply Z.eqb_neq; exact Hzero].
  - apply to_i32_small. apply rem_small; [lia | apply Z.eqb_neq; exact Hzero].
  - apply Z.ltb_lt.
  - apply Z.leb_le.
  - rewrite Hltb, Z.ltb_lt. lia.
  - rewrite Hgeb, Z.leb_le. lia.
  - apply Z.eqb_eq.
  - rewrite negb_true_iff. apply Z.eqb_neq.
  - rewrite andb_true_iff, !negb_true_iff, !Z.eqb_neq. reflexivity.
  - rewrite orb_true_iff, !negb_true_iff, !Z.eqb_neq. reflexivity.
Qed.

Lemma binop_step_witness :
  exists i',
    interpretOne (bytefile_of_code (fun _ => 0) [0x01]) example_add_interpreter
    = Some (CONTINUE, after_opcode (bytefile_of_code (fun _ => 0) [0x01]), i') /\
    UNBOX (top (stack i')) = 7.
Proof.
  destruct (binop_step unit _ (bytefile_of_code (fun _ => 0) [0x01])
                       example_add_interpreter 1)
    as (result & H1 & Hadd & _).
  - vm_compute. reflexivity.
  - vm_compute. reflexivity.
  - lia.
  - vm_compute. reflexivity.
  - intros [[H | H] _]; discriminate H.
  - specialize (Hadd eq_refl). subst result.
    eexists. split; [exact H1 |].
    vm_compute. reflexivity.
Defined.

(** ** Closures *)

Lemma onClosure_null {R : Type} {RT : Runtime R}
      (bytes : Z -> Z) (address : Z) (args : span) (i : Interpreter R) :
  enoughToPush 1 (stack i) = true ->
  fst (fst (alloc_closure (to_i32 (to_usize (size args + 1)))
                          (runtime i) (mem (stack i)))) = 0 ->
  exists i',
    onClosure bytes address args i = (CONTINUE, i') /\
    cerr i' = cerr i ++ [Str "Cannot allocate memory for closure"] /\
    cout i' = cout i /\
    gc_stack_top (stack i') = gc_stack_top (stack i) /\
    bp (stack i') = bp (stack i) /\
    nArgs (stack i') = nArgs (stack i) /\
    nLocals (stack i') = nLocals (stack i) /\
    mem (stack i') =
    snd (alloc_closure (to_i32 (to_usize (size args + 1))) (runtime i) (mem (stack i))).
Proof.
  intros Hroom Hnull. unfold onClosure, rt. rewrite Hroom. cbn [negb].
  destruct (alloc_closure (to_i32 (to_usize (size args + 1))) (runtime i) (mem (stack i)))
    as [[closure r] m].
  cbn [fst] in Hnull. subst closure.
  change (0 =? 0) with true. cbv iota.
  eexists. split; [reflexivity |]. simpl_state. repeat split; reflexivity.
Qed.

(** C10. When the opcode at the instruction pointer is [CLOSURE], its two
    operands are there, the stack has room and [alloc_closure] returns
    the null pointer, the step writes a diagnostic and still returns
    [CONTINUE]: nothing has been pushed, the stack is where it was, and
    the instruction pointer stands after the capture descriptors. *)
Theorem closure_allocation_failure
        (R : Type) (RT : Runtime R) (b : Bytefile) (i : Interpreter R) :
  enoughBytes 1 b = true ->
  read_u8 (ram b) (ip b) = 0x54 ->
  enoughBytes (4 * 2) (after_opcode b) = true ->
  enoughToPush 1 (stack i) = true ->
  let n := read_u32 (ram b) (ip b + 1 + 4) in
  fst (fst (alloc_closure (to_i32 (to_usize (to_u32 n + 1)))
                          (runtime i) (mem (stack i)))) = 0 ->
  exists b' i',
    interpretOne b i = Some (CONTINUE, b', i') /\
    cerr i' = cerr i ++ [Str "Cannot allocate memory for closure"] /\
    gc_stack_top (stack i') = gc_stack_top (stack i) /\
    bp (stack i') = bp (stack i) /\
    ip b' = ip b + 1 + 4 + 4 + to_usize (5 * n).
Proof.
  intros Henough Hcode Hoperands Hroom n Hnull.
  unfold after_opcode in Hoperands.
  decode Henough Hcode. rewrite Hoperands. cbn [negb].
  unfold getNextUnsigned, closureArray. cbv beta iota zeta. simpl_state.
  fold n.
  destruct (onClosure_null (ram b) (read_u32 (ram b) (ip b + 1))
                           (mkSpan (ip b + 1 + 4 + 4) (to_u32 n)) i Hroom Hnull)
    as (i' & Hstep & Hcerr & _ & Htop & Hbp & _).
  rewrite Hstep. unfold returned. cbn [fst snd].
  do 2 eexists. split; [reflexivity |]. simpl_state.
  repeat split; assumption || reflexivity.
Qed.

Lemma closure_allocation_failure_witness :
  exists b' i',
    interpretOne (bytefile_of_code (fun _ => 0) [0x54; 9; 0; 0; 0; 0; 0; 0; 0])
                 (Interpreter_new 65536 (fun _ => 0) tt 1)
    = Some (CONTINUE, b', i') /\
    gc_stack_top (stack i')
    = gc_stack_top (stack (Interpreter_new (R := unit) 65536 (fun _ => 0) tt 1)).
Proof.
  destruct (closure_allocation_failure unit _
              (bytefile_of_code (fun _ => 0) [0x54; 9; 0; 0; 0; 0; 0; 0; 0])
              (Interpreter_new 65536 (fun _ => 0) tt 1))
    as (b' & i' & H1 & _ & H2 & _).
  - vm_compute. reflexivity.
  - vm_compute. reflexivity.
  - vm_compute. reflexivity.
  - vm_compute. reflexivity.
  - vm_compute. reflexivity.
  - exists b', i'. split; [exact H1 | exact H2].
Defined.


(** ** Whole programs

    The scenarios of the specification, each after [BEGIN 2 0], run from
    a fresh interpreter: what they print and how they end. *)

(** [CONST 3; CONST 4; BINOP +; CALL Lwrite; END] *)
Example scenario_arithmetic :
  printed (run 10 (bytefile_of_code (fun _ => 0)
                     [0x52; 2; 0; 0; 0; 0; 0; 0; 0;
                      0x10; 3; 0; 0; 0;
                      0x10; 4; 0; 0; 0;
                      0x01; 0x71; 0x16])
               (Interpreter_new 65536 (fun _ => 0) tt 1))
  = Some (STOP, [7]).
Proof. vm_compute. reflexivity. Qed.

(** [CONST 0; CJMPz T; CONST 1; JMP E; T: CONST 2; E: CALL Lwrite; END] *)
Example scenario_conditional :
  printed (run 10 (bytefile_of_code (fun _ => 0)
                     [0x52; 2; 0; 0; 0; 0; 0; 0; 0;
                      0x10; 0; 0; 0; 0;
                      0x50; 29; 0; 0; 0;
                      0x10; 1; 0; 0; 0;
                      0x15; 34; 0; 0; 0;
                      0x10; 2; 0; 0; 0;
                      0x71; 0x16])
               (Interpreter_new 65536 (fun _ => 0) tt 1))
  = Some (STOP, [2]).
Proof. vm_compute. reflexivity. Qed.

(** The main function calls [f(5, 7)], which returns the sum of its
    arguments. *)
Example scenario_call :
  printed (run 20 (bytefile_of_code (fun _ => 0)
                     [0x52; 2; 0; 0; 0; 0; 0; 0; 0;
                      0x10; 5; 0; 0; 0;
                      0x10; 7; 0; 0; 0;
                      0x56; 30; 0; 0; 0; 2; 0; 0; 0;
                      0x71; 0x16;
                      0x52; 2; 0; 0; 0; 0; 0; 0; 0;
                      0x22; 0; 0; 0; 0;
                      0x22; 1; 0; 0; 0;
                      0x01; 0x16])
               (Interpreter_new 65536 (fun _ => 0) tt 1))
  = Some (STOP, [12]).
Proof. vm_compute. reflexivity. Qed.

(** * Further properties of the code *)

(** ** Saturating addition ([Utils.hpp]) *)

(** X1. On two [u32] values [satAdd] is the sum when it fits in 32 bits
    and [2^32 - 1] when it does not. *)
Theorem satAdd_saturates (lhs rhs : Z) :
  0 <= lhs < 2 ^ 32 ->
  0 <= rhs < 2 ^ 32 ->
  satAdd lhs rhs = Z.min (lhs + rhs) (2 ^ 32 - 1).
Proof.
  intros Hl Hr. unfold satAdd, u32_max, to_u32.
  destruct (Z_lt_le_dec (lhs + rhs) (2 ^ 32)) as [Hfit | Hover].
  - rewrite Z.mod_small by lia.
    replace (lhs + rhs <? lhs) with false by (symmetry; apply Z.ltb_ge; lia).
    lia.
  - replace (lhs + rhs) with (lhs + rhs - 2 ^ 32 + 1 * 2 ^ 32) at 1 2 by lia.
    rewrite Z.mod_add by lia. rewrite Z.mod_small by lia.
    replace (lhs + rhs - 2 ^ 32 <? lhs) with true by (symmetry; apply Z.ltb_lt; lia).
    lia.
Qed.

Lemma satAdd_saturates_witness : satAdd (2 ^ 32 - 1) 5 = 2 ^ 32 - 1.
Proof.
  rewrite (satAdd_saturates (2 ^ 32 - 1) 5); lia.
Defined.

(** ** The bytefile reader and cursor *)

(** X2. Whatever the buffer, the reader returns either a bag with at
    least one diagnostic or a bytefile whose bytecode view is not empty
    and shorter than the file, with the instruction pointer at its first
    byte, the global area size taken from the second header word, and no
    line and no previous instruction recorded. *)
Theorem readBytefile_result (bytes : Z -> Z) (ptr fileSize : Z) :
  match readBytefile bytes ptr fileSize with
  | inl errs => errs <> []
  | inr b =>
      0 < size (bytecode b) < fileSize /\
      ip b = data (bytecode b) /\
      globalAreaSize b = read_u32 bytes (ptr + 4) /\
      fileLine b = 0 /\ prevIP b = 0 /\ rawData b = ptr /\ ram b = bytes
  end.
Proof.
  unfold readBytefile.
  destruct (fileSize <=? _); destruct (fileSize <=? _); cbv beta iota zeta;
    match goal with
    | |- context [if ?c then _ else _] => destruct c eqn:E
    end;
    cbn [app]; try discriminate.
  apply orb_false_iff in E. destruct E as [E0 E1].
  apply Z.eqb_neq in E0. apply Z.leb_gt in E1.
  cbn [size] in E0, E1.
  cbn [bytecode size data ip globalAreaSize fileLine prevIP rawData ram].
  match goal with
  | |- 0 < ?x < _ /\ _ => set (bc := x) in *
  end.
  assert (Hrange : 0 <= bc) by (subst bc; apply to_u32_range).
  repeat split; try reflexivity; lia.
Qed.

Lemma readBytefile_without_wrap_witness :
  exists b,
    readBytefile (load_file (fun _ => 0) 4096 small_file) 4096 25 = inr b /\
    views_inside b 4096 25 /\ views_disjoint b.
Proof.
  destruct (readBytefile_without_wrap (load_file (fun _ => 0) 4096 small_file) 4096 25)
    as [_ H].
  - lia.
  - vm_compute. reflexivity.
  - destruct H as (b & H1 & H2 & H3 & _).
    + vm_compute. reflexivity.
    + exists b. split; [exact H1 | split; [exact H2 | exact H3]].
Defined.

Lemma ip_in_buffer_offset (b : Bytefile) :
  ip_in_buffer b ->
  to_usize (size (bytecode b) - to_usize (ip b - data (bytecode b)))
  = data (bytecode b) + size (bytecode b) - ip b.
Proof.
  intros [Hsize Hip]. unfold to_usize.
  rewrite (Z.mod_small (ip b - data (bytecode b))) by lia.
  rewrite Z.mod_small by lia. lia.
Qed.

Lemma enoughBytes_true (b : Bytefile) (k : Z) :
  ip_in_buffer b -> enoughBytes k b = true ->
  ip b + k <= data (bytecode b) + size (bytecode b).
Proof.
  intros Hin H. unfold enoughBytes in H.
  rewrite (ip_in_buffer_offset b Hin) in H. apply Z.leb_le in H. lia.
Qed.

(** X4. While the instruction pointer is inside the bytecode view,
    [enoughBytes(k)] answers [true] exactly when [k] more bytes lie before
    the end of the view. *)
Theorem enoughBytes_exact (b : Bytefile) (k : Z) :
  ip_in_buffer b ->
  (enoughBytes k b = true <-> ip b + k <= data (bytecode b) + size (bytecode b)).
Proof.
  intros Hin. unfold enoughBytes.
  rewrite (ip_in_buffer_offset b Hin). rewrite Z.leb_le. lia.
Qed.

Lemma enoughBytes_exact_witness :
  enoughBytes 5 (bytefile_of_code (fun _ => 0) [0x10; 3; 0; 0; 0]) = true /\
  enoughBytes 6 (bytefile_of_code (fun _ => 0) [0x10; 3; 0; 0; 0]) = false.
Proof.
  assert (Hin : ip_in_buffer (bytefile_of_code (fun _ => 0) [0x10; 3; 0; 0; 0])).
  { unfold ip_in_buffer. cbn. lia. }
  split.
  - apply (proj2 (enoughBytes_exact _ 5 Hin)). cbn. lia.
  - destruct (enoughBytes 6 (bytefile_of_code (fun _ => 0) [0x10; 3; 0; 0; 0])) eqn:E;
      [| reflexivity].
    apply (proj1 (enoughBytes_exact _ 6 Hin)) in E. cbn in E. lia.
Defined.

(** X5. [trySetAddress] succeeds exactly for offsets below the bytecode
    size.  On success the instruction pointer is inside the view and
    [address()] gives the offset back; on failure the bytefile is
    unchanged. *)
Theorem trySetAddress_address (b : Bytefile) (absoluteAddress : Z) :
  0 <= absoluteAddress < 2 ^ 32 ->
  fst (trySetAddress absoluteAddress b) = (absoluteAddress <? size (bytecode b)) /\
  (absoluteAddress < size (bytecode b) ->
   address (snd (trySetAddress absoluteAddress b)) = absoluteAddress /\
   data (bytecode b) <= ip (snd (trySetAddress absoluteAddress b))
   < data (bytecode b) + size (bytecode b) /\
   bytecode (snd (trySetAddress absoluteAddress b)) = bytecode b) /\
  (size (bytecode b) <= absoluteAddress ->
   snd (trySetAddress absoluteAddress b) = b).
Proof.
  intros Ha. unfold trySetAddress. rewrite Z.leb_antisym.
  destruct (absoluteAddress <? size (bytecode b)) eqn:E; cbn [negb fst snd].
  - apply Z.ltb_lt in E. split; [reflexivity |]. split; [| lia].
    intros _. unfold address. simpl_state.
    replace (data (bytecode b) + absoluteAddress - data (bytecode b))
      with absoluteAddress by lia.
    split; [apply to_u32_small; lia |]. split; [lia | reflexivity].
  - apply Z.ltb_ge in E. split; [reflexivity |]. split; [lia | reflexivity].
Qed.

Lemma trySetAddress_address_witness :
  address (snd (trySetAddress 3 (bytefile_of_code (fun _ => 0) [0x18; 0x18; 0x18; 0x16])))
  = 3.
Proof.
  destruct (trySetAddress_address (bytefile_of_code (fun _ => 0) [0x18; 0x18; 0x18; 0x16]) 3)
    as (_ & H & _).
  - lia.
  - destruct H as [H _].
    + cbn. lia.
    + exact H.
Defined.

(** X6. [getNextString] with fewer than four bytes left fails and leaves
    the cursor where it was.  With four bytes left it consumes them; the
    result is then a pointer into the string pool when the index read is
    below the pool size, and nothing when it is not. *)
Theorem getNextString_cases (b : Bytefile) :
  (enoughBytes 4 b = false -> getNextString b = (None, b)) /\
  (enoughBytes 4 b = true ->
   ip (snd (getNextString b)) = ip b + 4 /\
   bytecode (snd (getNextString b)) = bytecode b /\
   (read_u32 (ram b) (ip b) < size (strPool b) ->
    exists p, fst (getNextString b) = Some p /\
              p = data (strPool b) + read_u32 (ram b) (ip b) /\
              data (strPool b) <= p < data (strPool b) + size (strPool b)) /\
   (size (strPool b) <= read_u32 (ram b) (ip b) ->
    fst (getNextString b) = None)).
Proof.
  unfold getNextString. split; intros H; rewrite H; cbn [negb].
  - reflexivity.
  - unfold getNextUnsigned, getString. cbv beta iota zeta. simpl_state.
    split; [reflexivity |]. split; [reflexivity |].
    pose proof (read_u32_range (ram b) (ip b)) as Hr.
    split; intros Hidx.
    + replace (size (strPool b) <=? read_u32 (ram b) (ip b)) with false
        by (symmetry; apply Z.leb_gt; lia).
      eexists. split; [reflexivity |]. split; [reflexivity | lia].
    + replace (size (strPool b) <=? read_u32 (ram b) (ip b)) with true
        by (symmetry; apply Z.leb_le; lia).
      reflexivity.
Qed.

(** ** Stack guards *)

Lemma holds_depth (k : Z) (s : Stack) :
  holds k s -> to_usize (ptrdiff (begin s) (gc_stack_top s)) = k.
Proof.
  intros [Hk Htop]. unfold ptrdiff. rewrite Htop.
  replace (begin s - (begin s - word_size * k)) with (k * word_size) by lia.
  rewrite Z.div_mul by (unfold word_size; lia).
  apply to_u32_small. lia.
Qed.

(** X7. On a stack that holds [k] words, [enoughToPop(n)] answers [true]
    exactly when [n <= k]. *)
Theorem enoughToPop_exact (k n : Z) (s : Stack) :
  holds k s -> (enoughToPop n s = true <-> n <= k).
Proof.
  intros H. unfold enoughToPop. rewrite (holds_depth k s H). apply Z.leb_le.
Qed.

Lemma enoughToPop_exact_witness :
  enoughToPop 5 example_three_values = true /\
  enoughToPop 6 example_three_values = false.
Proof.
  assert (H : holds 5 example_three_values).
  { unfold holds. split; [lia | vm_compute; reflexivity]. }
  split.
  - apply (proj2 (enoughToPop_exact 5 5 _ H)). lia.
  - destruct (enoughToPop 6 example_three_values) eqn:E; [| reflexivity].
    apply (proj1 (enoughToPop_exact 5 6 _ H)) in E. lia.
Defined.

(** X8. [enoughToPush] measures from the top down to the start of the
    array with the operands of its subtraction exchanged.  With the top
    [k] words above the start of the array, [0 < k < 2^32], it answers
    [true] for every [n] up to [2^32 - k], however little room there is;
    with the top at the start of the array, where one slot is still free,
    it answers [false] for every [n >= 1]. *)
Theorem enoughToPush_behaviour (k n : Z) (s : Stack) :
  0 <= k < 2 ^ 32 ->
  gc_stack_top s = innerData s + word_size * k ->
  (0 < k -> (enoughToPush n s = true <-> n <= 2 ^ 32 - k)) /\
  (k = 0 -> (enoughToPush n s = true <-> n <= 0)).
Proof.
  intros Hk Htop. unfold enoughToPush, ptrdiff. rewrite Htop.
  replace (innerData s - (innerData s + word_size * k)) with (- k * word_size) by lia.
  rewrite Z.div_mul by (unfold word_size; lia).
  split; intros Hpos.
  - unfold to_usize.
    replace (- k) with (2 ^ 32 - k + (-1) * 2 ^ 32) by lia.
    rewrite Z.mod_add by lia. rewrite Z.mod_small by lia.
    apply Z.leb_le.
  - subst k. change (to_usize (- 0)) with 0. apply Z.leb_le.
Qed.

Lemma enoughToPush_behaviour_witness :
  enoughToPush 1000000 example_three_values = true.
Proof.
  destruct (enoughToPush_behaviour 99993 1000000 example_three_values) as [H _].
  - lia.
  - vm_compute. reflexivity.
  - apply H; lia.
Defined.

(** ** Arguments and locals of a frame *)

Lemma push_all_registers (vs : list Z) (s : Stack) :
  gc_stack_top (push_all vs s) = gc_stack_top s - word_size * Z.of_nat (List.length vs) /\
  bp (push_all vs s) = bp s /\
  nArgs (push_all vs s) = nArgs s /\
  nLocals (push_all vs s) = nLocals s /\
  begin (push_all vs s) = begin s /\
  innerData (push_all vs s) = innerData s.
Proof.
  revert s. induction vs as [| v vs IH]; intros s.
  - cbn. repeat split; lia.
  - cbn [push_all fold_left List.length]. fold (push_all vs (push v s)).
    destruct (IH (push v s)) as (H1 & H2 & H3 & H4 & H5 & H6).
    rewrite H1, H2, H3, H4, H5, H6. simpl_state.
    repeat split; try reflexivity.
    rewrite Nat2Z.inj_succ. unfold word_size. lia.
Qed.

Lemma push_all_above (vs : list Z) (s : Stack) (a : Z) :
  gc_stack_top s < a -> mem (push_all vs s) a = mem s a.
Proof.
  revert s. induction vs as [| v vs IH]; intros s Ha.
  - reflexivity.
  - cbn [push_all fold_left]. fold (push_all vs (push v s)).
    rewrite IH by (simpl_state; unfold word_size; lia).
    simpl_state. apply store_other. lia.
Qed.

Lemma push_all_nth (vs : list Z) (s : Stack) (n : nat) :
  (n < List.length vs)%nat ->
  mem (push_all vs s) (gc_stack_top s - word_size * Z.of_nat n) = nth n vs 0.
Proof.
  revert s n. induction vs as [| v vs IH]; intros s n Hn.
  - cbn in Hn. lia.
  - cbn [push_all fold_left]. fold (push_all vs (push v s)).
    destruct n as [| n].
    + rewrite push_all_above by (simpl_state; unfold word_size; lia).
      simpl_state. cbn [nth]. apply store_eq. unfold word_size. lia.
    + cbn [nth]. rewrite <- (IH (push v s) n) by (cbn in Hn; lia).
      f_equal. simpl_state. rewrite Nat2Z.inj_succ. unfold word_size. lia.
Qed.

(** X9. Arguments are addressed in the order of the call.  When a caller
    has pushed the values [args], first to last, and then the return
    address, all in the array, and the callee's prologue for that many
    arguments has run and its frame fits the array,
    [getReference(index, Argument)] is the slot of the value pushed as
    number [index], a slot of the array, and [onLoad] pushes that
    value. *)
Theorem arguments_in_call_order
        (R : Type) (RT : Runtime R) (i : Interpreter R)
        (s : Stack) (args : list Z) (returnAddress : Z)
        (c : bool) (l : Z) (index : nat) :
  0 <= l ->
  in_array s (gc_stack_top s) ->
  frame_fits l (push returnAddress (push_all args s)) ->
  (index < List.length args)%nat ->
  prologue c (Z.of_nat (List.length args)) l (push returnAddress (push_all args s))
  = (true, stack i) ->
  enoughToPush 1 (stack i) = true ->
  exists p,
    getReference (Z.of_nat index) Argument (stack i) = Some p /\
    p = gc_stack_top s - word_size * Z.of_nat index /\
    in_array s p /\
    mem (stack i) p = nth index args 0 /\
    fst (onLoad (Z.of_nat index) Argument i) = CONTINUE /\
    top (stack (snd (onLoad (Z.of_nat index) Argument i))) = nth index args 0.
Proof.
  intros Hl0 Hfirst Hfits Hidx Hpro Hroom.
  pose proof (frame_fits_bound _ _ Hfits) as Hl1.
  assert (Hl : 0 <= l < 2 ^ 32 - 1) by lia.
  destruct (push_all_registers args s) as (Htop & _ & _ & _ & _ & Harray).
  assert (Hslot : in_array s (gc_stack_top s - word_size * Z.of_nat index)).
  { destruct Hfits as [_ Hlow]. unfold in_array in *. simpl_state in Hlow.
    rewrite Htop, Harray in Hlow. unfold word_size in *. lia. }
  clear Hl0 Hl1 Hfits Hfirst Harray.
  assert (Hguard : enoughToPush (satAdd 4 l) (push returnAddress (push_all args s)) = true).
  { unfold prologue in Hpro.
    destruct (enoughToPush (satAdd 4 l) (push returnAddress (push_all args s)));
      [reflexivity | discriminate]. }
  rewrite (prologue_eq _ _ _ _ Hguard) in Hpro.
  apply (f_equal snd) in Hpro. cbn [snd] in Hpro. rename Hpro into Hs.
  assert (Href : getReference (Z.of_nat index) Argument (stack i)
                 = Some (gc_stack_top s - word_size * Z.of_nat index)).
  { rewrite <- Hs. unfold getReference.
    change (Argument =? Global) with false. change (Argument =? Local) with false.
    change (Argument =? Argument) with true. cbv iota. simpl_state.
    replace (Z.of_nat (List.length args) <=? Z.of_nat index) with false
      by (symmetry; apply Z.leb_gt; lia).
    f_equal. rewrite Htop. unfold word_size. lia. }
  assert (Hval : mem (stack i) (gc_stack_top s - word_size * Z.of_nat index)
                 = nth index args 0).
  { rewrite <- Hs. simpl_state. rewrite Htop.
    rewrite (to_u32_small (l + 1)) by lia.
    mem_read. apply push_all_nth. exact Hidx. }
  eexists. split; [exact Href |]. split; [reflexivity |].
  split; [exact Hslot |]. split; [exact Hval |].
  unfold onLoad. rewrite Href, Hroom. cbn [negb fst snd]. simpl_state.
  split; [reflexivity |]. rewrite top_push. exact Hval.
Qed.

Lemma pair_with_true (p : bool * Stack) : fst p = true -> p = (true, snd p).
Proof. destruct p as [ok s]. cbn. intros ->. reflexivity. Qed.

Lemma arguments_in_call_order_witness :
  top (stack (snd (onLoad 1 Argument example_callee))) = 7.
Proof.
  destruct (arguments_in_call_order unit _ example_callee
              (Stack_new 65536 (fun _ => 0) 1) [5; 7] 4105 false 3 1%nat)
    as (p & _ & _ & _ & _ & _ & H).
  - lia.
  - in_array_example.
  - in_array_example.
  - cbn. lia.
  - apply pair_with_true. vm_compute. reflexivity.
  - vm_compute. reflexivity.
  - exact H.
Defined.

(** X10. The locals of a fresh frame read as zero.  After a prologue for
    [l] locals whose frame fits the array, [getReference(index, Local)]
    for every [index < l] is a slot of the array that holds [BOX(0)],
    and [onLoad] pushes that word. *)
Theorem locals_start_boxed_zero
        (R : Type) (RT : Runtime R) (i : Interpreter R)
        (s : Stack) (c : bool) (a l index : Z) :
  frame_fits l s ->
  0 <= index < l ->
  prologue c a l s = (true, stack i) ->
  enoughToPush 1 (stack i) = true ->
  exists p,
    getReference index Local (stack i) = Some p /\
    in_array s p /\
    mem (stack i) p = to_usize (BOX 0) /\
    fst (onLoad index Local i) = CONTINUE /\
    top (stack (snd (onLoad index Local i))) = to_usize (BOX 0) /\
    UNBOX (top (stack (snd (onLoad index Local i)))) = 0.
Proof.
  intros Hfits Hidx Hpro Hroom.
  pose proof (frame_fits_bound _ _ Hfits) as Hl1.
  assert (Hl : 0 <= l < 2 ^ 32 - 1) by lia.
  assert (Hslot : in_array s (gc_stack_top s - word_size * 3 - word_size * index)).
  { destruct Hfits as [Hlow Hhigh]. unfold in_array in *. unfold word_size in *. lia. }
  clear Hl1 Hfits.
  assert (Hguard : enoughToPush (satAdd 4 l) s = true).
  { unfold prologue in Hpro.
    destruct (enoughToPush (satAdd 4 l) s); [reflexivity | discriminate]. }
  rewrite (prologue_eq _ _ _ _ Hguard) in Hpro.
  apply (f_equal snd) in Hpro. cbn [snd] in Hpro. rename Hpro into Hs.
  assert (Href : getReference index Local (stack i)
                 = Some (gc_stack_top s - word_size * 3 - word_size * index)).
  { rewrite <- Hs. unfold getReference.
    change (Local =? Global) with false. change (Local =? Local) with true.
    cbv iota. simpl_state.
    replace (l <=? index) with false by (symmetry; apply Z.leb_gt; lia).
    f_equal. unfold word_size. lia. }
  assert (Hval : mem (stack i) (gc_stack_top s - word_size * 3 - word_size * index)
                 = to_usize (BOX 0)).
  { rewrite <- Hs. simpl_state.
    rewrite (to_u32_small (l + 1)) by lia.
    apply (fill_at _ _ _ _ _ (l + 1 - index)). unfold word_size. lia. }
  eexists. split; [exact Href |]. split; [exact Hslot |]. split; [exact Hval |].
  unfold onLoad. rewrite Href, Hroom. cbn [negb fst snd]. simpl_state.
  split; [reflexivity |]. rewrite top_push. split; [exact Hval |].
  rewrite Hval. reflexivity.
Qed.

Lemma locals_start_boxed_zero_witness :
  UNBOX (top (stack (snd (onLoad 2 Local example_callee)))) = 0.
Proof.
  destruct (locals_start_boxed_zero unit _ example_callee
              (push 4105 (push_all [5; 7] (Stack_new 65536 (fun _ => 0) 1)))
              false 2 3 2)
    as (p & _ & _ & _ & _ & _ & H).
  - in_array_example.
  - lia.
  - apply pair_with_true. vm_compute. reflexivity.
  - vm_compute. reflexivity.
  - exact H.
Defined.

(** ** Loads, stores and stack shuffles *)

Lemma getReference_set_mem (index kind : Z) (m : Mem) (s : Stack) :
  kind <> Captured ->
  getReference index kind (set_mem m s) = getReference index kind s.
Proof.
  intros Hkind. unfold getReference. simpl_state.
  destruct (kind =? Global); [reflexivity |].
  destruct (kind =? Local); [reflexivity |].
  destruct (kind =? Argument); [reflexivity |].
  destruct (kind =? Captured) eqn:E; [| reflexivity].
  apply Z.eqb_eq in E. contradiction.
Qed.

(** X11. A store can be read back.  When [onStore(index, kind)] succeeds
    for a global, a local or an argument whose slot is a slot of the
    array, the slot holds the word that was on top of the stack, and an
    [onLoad] of the same variable right after it pushes that word. *)
Theorem store_then_load
        (R : Type) (RT : Runtime R) (i : Interpreter R) (index kind p : Z) :
  kind <> Captured ->
  getReference index kind (stack i) = Some p ->
  in_array (stack i) p ->
  fst (onStore index kind i) = CONTINUE ->
  enoughToPush 1 (stack (snd (onStore index kind i))) = true ->
  mem (stack (snd (onStore index kind i))) p = top (stack i) /\
  fst (onLoad index kind (snd (onStore index kind i))) = CONTINUE /\
  top (stack (snd (onLoad index kind (snd (onStore index kind i))))) = top (stack i).
Proof.
  intros Hkind Href Hslot Hstore Hroom. unfold onStore in *.
  destruct (enoughToPop 1 (stack i)); cbn [negb fst] in *; [| discriminate].
  rewrite Href in *. cbn [fst snd] in *.
  unfold onLoad, poke in *. cbn [stack set_stack] in *.
  rewrite (getReference_set_mem _ _ _ _ Hkind), Href, Hroom.
  cbn [negb fst snd]. simpl_state.
  split; [apply store_same |]. split; [reflexivity |].
  rewrite top_push. apply store_same.
Qed.

Lemma store_then_load_witness :
  top (stack (snd (onLoad 1 Local (snd (onStore 1 Local example_frame_interpreter)))))
  = to_usize (BOX 4).
Proof.
  destruct (store_then_load unit _ example_frame_interpreter 1 Local
              (bp (stack example_frame_interpreter) - word_size * 1 - word_size * 1))
    as (_ & _ & H).
  - discriminate.
  - vm_compute. reflexivity.
  - in_array_example.
  - vm_compute. reflexivity.
  - vm_compute. reflexivity.
  - rewrite H. vm_compute. reflexivity.
Defined.

(** X12. [onSwap] on a stack with two values exchanges the two topmost
    words and no other word: the top stays where it was and every other
    cell of the memory keeps its content. *)
Theorem swap_exchanges (R : Type) (RT : Runtime R) (i : Interpreter R) :
  enoughToPop 2 (stack i) = true ->
  fst (onSwap i) = CONTINUE /\
  gc_stack_top (stack (snd (onSwap i))) = gc_stack_top (stack i) /\
  mem (stack (snd (onSwap i))) (gc_stack_top (stack i) + word_size)
  = mem (stack i) (gc_stack_top (stack i) + word_size * 2) /\
  mem (stack (snd (onSwap i))) (gc_stack_top (stack i) + word_size * 2)
  = mem (stack i) (gc_stack_top (stack i) + word_size) /\
  (forall a, a <> gc_stack_top (stack i) + word_size ->
             a <> gc_stack_top (stack i) + word_size * 2 ->
             mem (stack (snd (onSwap i))) a = mem (stack i) a).
Proof.
  intros Hpop. unfold onSwap. rewrite Hpop. cbn [negb]. simpl_state.
  repeat match goal with |- _ /\ _ => split end; try reflexivity.
  - unfold word_size. lia.
  - mem_read. f_equal. unfold word_size. lia.
  - mem_read. reflexivity.
  - intros a Ha1 Ha2. mem_read. reflexivity.
Qed.

Lemma swap_exchanges_witness :
  mem (stack (snd (onSwap example_frame_interpreter)))
      (gc_stack_top (stack example_frame_interpreter) + word_size)
  = to_usize (BOX 3).
Proof.
  destruct (swap_exchanges unit _ example_frame_interpreter) as (_ & _ & H & _).
  - vm_compute. reflexivity.
  - rewrite H. vm_compute. reflexivity.
Defined.

(** X13. [onDuplicate] on a stack with a value and with room pushes a
    copy of the top word: afterwards the two topmost words are both the
    former top, and every cell above the written slot keeps its
    content. *)
Theorem duplicate_copies_top (R : Type) (RT : Runtime R) (i : Interpreter R) :
  enoughToPop 1 (stack i) = true ->
  enoughToPush 1 (stack i) = true ->
  fst (onDuplicate i) = CONTINUE /\
  gc_stack_top (stack (snd (onDuplicate i))) = gc_stack_top (stack i) - word_size /\
  top (stack (snd (onDuplicate i))) = top (stack i) /\
  mem (stack (snd (onDuplicate i))) (gc_stack_top (stack i) + word_size)
  = top (stack i) /\
  (forall a, a <> gc_stack_top (stack i) ->
             mem (stack (snd (onDuplicate i))) a = mem (stack i) a).
Proof.
  intros Hpop Hpush. unfold onDuplicate. rewrite Hpop, Hpush. cbn [negb fst snd].
  simpl_state.
  repeat match goal with |- _ /\ _ => split end; try reflexivity.
  - apply top_push.
  - unfold top. mem_read. f_equal; unfold word_size; lia.
  - intros a Ha. mem_read. reflexivity.
Qed.

Lemma duplicate_copies_top_witness :
  top (stack (snd (onDuplicate example_frame_interpreter))) = to_usize (BOX 4).
Proof.
  destruct (duplicate_copies_top unit _ example_frame_interpreter) as (_ & _ & H & _).
  - vm_compute. reflexivity.
  - vm_compute. reflexivity.
  - rewrite H. vm_compute. reflexivity.
Defined.

(** ** The decoder and the instruction pointer *)

Lemma cursor_kept_advance (b b1 : Bytefile) (k : Z) :
  cursor_kept b b1 -> 0 <= k -> enoughBytes k b1 = true ->
  cursor_kept b (set_ip (ip b1 + k) b1).
Proof.
  intros (Hin & Hb & Hs & Hr) Hk H.
  pose proof (enoughBytes_true b1 k Hin H).
  destruct Hin as [Hsz Hip]. unfold cursor_kept, ip_in_buffer. simpl_state.
  repeat split; try assumption; lia.
Qed.

Lemma cursor_kept_advance2 (b b1 : Bytefile) :
  cursor_kept b b1 -> enoughBytes (4 * 2) b1 = true ->
  cursor_kept b (set_ip (ip (set_ip (ip b1 + 4) b1) + 4) (set_ip (ip b1 + 4) b1)).
Proof.
  intros (Hin & Hb & Hs & Hr) H.
  pose proof (enoughBytes_true b1 _ Hin H).
  destruct Hin as [Hsz Hip]. unfold cursor_kept, ip_in_buffer. simpl_state.
  repeat split; try assumption; lia.
Qed.

Lemma cursor_kept_trySetAddress (b b1 : Bytefile) (a : Z) :
  cursor_kept b b1 -> 0 <= a -> cursor_kept b (snd (trySetAddress a b1)).
Proof.
  intros (Hin & Hb & Hs & Hr) Ha. unfold trySetAddress.
  destruct (size (bytecode b1) <=? a) eqn:E; cbn [snd].
  - repeat split; try assumption; apply Hin.
  - apply Z.leb_gt in E. destruct Hin as [Hsz Hip].
    unfold cursor_kept, ip_in_buffer. simpl_state.
    repeat split; try assumption; lia.
Qed.

Lemma cursor_kept_getNextString (b b1 : Bytefile) :
  cursor_kept b b1 -> cursor_kept b (snd (getNextString b1)).
Proof.
  intros H. unfold getNextString.
  destruct (enoughBytes 4 b1) eqn:E; cbn [negb].
  - unfold getNextUnsigned. cbn [snd]. apply cursor_kept_advance; [exact H | lia | exact E].
  - exact H.
Qed.

Lemma cursor_kept_after_opcode (b : Bytefile) :
  ip_in_buffer b -> enoughBytes 1 b = true -> cursor_kept b (after_opcode b).
Proof.
  intros Hin H. pose proof (enoughBytes_true b 1 Hin H).
  destruct Hin as [Hs Hip]. unfold cursor_kept, ip_in_buffer, after_opcode. simpl_state.
  repeat split; lia.
Qed.

(** The cursor is where a chain of checked reads and jumps has put it. *)
Ltac cursor_inside :=
  first
    [ assumption
    | apply cursor_kept_advance2; [cursor_inside | assumption]
    | apply cursor_kept_advance; [cursor_inside | lia | assumption]
    | apply cursor_kept_trySetAddress;
      [cursor_inside | first [ apply (proj1 (read_u32_range _ _))
                             | apply (proj1 (to_u32_range _)) ] ]
    | apply cursor_kept_getNextString; cursor_inside ].

(** The paths of one decoded instruction, down to the bytefile it leaves. *)
Ltac cursor_paths :=
  cbv beta iota zeta;
  unfold getNextInt, getNextUnsigned, onJump, returned, checkEnoughBytes_failed,
    trySetAddr_failed;
  cbv beta iota zeta;
  repeat match goal with
    | |- context [enoughBytes ?k ?bb] =>
        let E := fresh "E" in destruct (enoughBytes k bb) eqn:E; cbn [negb]
    | |- context [match getNextString ?bb with _ => _ end] =>
        rewrite (surjective_pairing (getNextString bb));
        let E := fresh "E" in destruct (fst (getNextString bb)) eqn:E
    | |- context [match trySetAddress ?a ?bb with _ => _ end] =>
        rewrite (surjective_pairing (trySetAddress a bb));
        let E := fresh "E" in destruct (fst (trySetAddress a bb)) eqn:E; cbn [negb]
    | |- context [match ?x with _ => _ end] =>
        let E := fresh "E" in destruct x eqn:E
    end;
  try discriminate;
  intros Hstep; injection Hstep as _ <- _; cursor_inside.



(** ** What an instruction leaves alone *)

Create HintDb observables.

Lemma observables_registers (R : Type) (i i' : Interpreter R) :
  observables i' = observables i -> registers (stack i') = registers (stack i).
Proof. unfold observables. congruence. Qed.

Lemma observables_isClosure (R : Type) (i i' : Interpreter R) :
  observables i' = observables i -> isClosure i' = isClosure i.
Proof. unfold observables. congruence. Qed.

Lemma observables_cout (R : Type) (i i' : Interpreter R) :
  observables i' = observables i -> cout i' = cout i.
Proof. unfold observables. congruence. Qed.

Lemma registers_frame (s s' : Stack) :
  registers s' = registers s -> frame_registers s' = frame_registers s.
Proof. unfold registers. congruence. Qed.

Lemma registers_layout (s s' : Stack) :
  registers s' = registers s -> layout s' = layout s.
Proof. unfold registers. congruence. Qed.

Lemma observables_rt (R : Type) (c : call R) (i : Interpreter R) :
  observables (snd (rt c i)) = observables i.
Proof.
  unfold rt. destruct (c (runtime i) (mem (stack i))) as [[v r] m]. reflexivity.
Qed.

Lemma observables_pop_into
      (R : Type) (RT : Runtime R) (contents : Z) (n : nat) (i : Interpreter R) :
  observables (pop_into contents n i) = observables i.
Proof.
  revert i. induction n as [| k IH]; intros i; [reflexivity |].
  cbn [pop_into]. unfold ipop, pop. cbv beta iota zeta. rewrite IH. reflexivity.
Qed.

Lemma observables_capture
      (R : Type) (RT : Runtime R) (bytes : Z -> Z) (n : nat) (arg slot : Z)
      (i : Interpreter R) :
  observables (snd (capture bytes arg slot n i)) = observables i.
Proof.
  revert arg slot i. induction n as [| k IH]; intros arg slot i; [reflexivity |].
  cbn [capture]. destruct (getReference _ _ _); [| reflexivity].
  rewrite IH. reflexivity.
Qed.

Lemma prologue_layout (c : bool) (a l : Z) (s : Stack) :
  layout (snd (prologue c a l s)) = layout s.
Proof.
  unfold prologue. destruct (enoughToPush (satAdd 4 l) s); reflexivity.
Qed.

Lemma epilogue_layout (c : bool) (s : Stack) :
  layout (snd (epilogue c s)) = layout s.
Proof.
  unfold epilogue.
  destruct (enoughToPop (satAdd (5 + (if c then 1 else 0)) (nArgs s)) s);
    [| reflexivity].
  destruct c; reflexivity.
Qed.

Ltac observables_step :=
  match goal with
  | |- context [pop_into ?c ?n ?i] =>
      let H := fresh "Hpop" in
      pose proof (observables_pop_into _ _ c n i) as H;
      let x := fresh "i" in
      set (x := pop_into c n i) in *; clearbody x
  | |- context [if negb ?c then _ else _] => destruct c; cbn [negb]
  | |- context [if ?c then _ else _] => destruct c
  | |- context [match rt ?c ?i with _ => _ end] =>
      let H := fresh "Hrt" in
      pose proof (observables_rt _ c i) as H;
      destruct (rt c i) as [? ?]; cbn [snd] in H
  | |- context [match getReference ?a ?b ?s with _ => _ end] =>
      destruct (getReference a b s)
  | |- context [match binop ?a ?b ?c with _ => _ end] =>
      destruct (binop a b c)
  | |- context [match capture ?a ?b ?c ?d ?e with _ => _ end] =>
      let H := fresh "Hcap" in
      pose proof (observables_capture _ _ a d b c e) as H;
      destruct (capture a b c d e) as [? ?]; cbn [snd] in H
  | |- context [match prologue ?c ?a ?l ?s with _ => _ end] =>
      let H := fresh "Hpro" in
      pose proof (prologue_layout c a l s) as H;
      destruct (prologue c a l s) as [? ?]; cbn [snd] in H
  | |- context [match epilogue ?c ?s with _ => _ end] =>
      let H := fresh "Hepi" in
      pose proof (epilogue_layout c s) as H;
      destruct (epilogue c s) as [? ?]; cbn [snd] in H
  end.

Ltac observables_unfold :=
  repeat (cbv beta iota zeta; unfold ipop, pop; cbv beta iota zeta; observables_step);
  cbv beta iota zeta; cbn [fst snd].

Ltac observables_close :=
  unfold observables, registers, frame_registers, layout in *;
  repeat match goal with
         | H : (_, _) = (_, _) |- _ => simpl_state in H; injection H; clear H; intros
         end;
  simpl_state; try congruence.

Ltac observables_handler := intros; observables_unfold; observables_close.

Section Observables.

Context {R : Type} {RT : Runtime R}.

Lemma observables_onCallLRead (i : Interpreter R) :
  observables (snd (onCallLRead i)) = observables i.
Proof. unfold onCallLRead. observables_handler. Qed.

Lemma observables_onLine l (i : Interpreter R) :
  observables (snd (onLine l i)) = observables i.
Proof. unfold onLine. observables_handler. Qed.

Lemma observables_onStore a k (i : Interpreter R) :
  observables (snd (onStore a k i)) = observables i.
Proof. unfold onStore. observables_handler. Qed.

Lemma observables_onDrop (i : Interpreter R) :
  observables (snd (onDrop i)) = observables i.
Proof. unfold onDrop. observables_handler. Qed.

Lemma observables_onLoad a k (i : Interpreter R) :
  observables (snd (onLoad a k i)) = observables i.
Proof. unfold onLoad. observables_handler. Qed.

Lemma observables_onBinOp op (i : Interpreter R) r :
  onBinOp op i = Some r -> observables (snd r) = observables i.
Proof.
  unfold onBinOp. observables_unfold;
    intros H; try discriminate; injection H as <-; observables_close.
Qed.

Lemma observables_onConst v (i : Interpreter R) :
  observables (snd (onConst v i)) = observables i.
Proof. unfold onConst. observables_handler. Qed.

Lemma observables_onJump l (i : Interpreter R) :
  observables (snd (onJump l i)) = observables i.
Proof. unfold onJump. observables_handler. Qed.

Lemma observables_onCondJump nz l a (i : Interpreter R) :
  observables (snd (onCondJump nz l a i)) = observables i.
Proof. unfold onCondJump. observables_handler. Qed.

Lemma observables_onCall l n a (i : Interpreter R) :
  observables (snd (onCall l n a i)) = observables i.
Proof. unfold onCall. observables_handler. Qed.

Lemma observables_onString p (i : Interpreter R) :
  observables (snd (onString p i)) = observables i.
Proof. unfold onString. observables_handler. Qed.

Lemma observables_onCallLLength (i : Interpreter R) :
  observables (snd (onCallLLength i)) = observables i.
Proof. unfold onCallLLength. observables_handler. Qed.

Lemma observables_onElem (i : Interpreter R) :
  observables (snd (onElem i)) = observables i.
Proof. unfold onElem. observables_handler. Qed.

Lemma observables_onSTA (i : Interpreter R) :
  observables (snd (onSTA i)) = observables i.
Proof. unfold onSTA. observables_handler. Qed.

Lemma observables_onCallBArray n (i : Interpreter R) :
  observables (snd (onCallBArray n i)) = observables i.
Proof. unfold onCallBArray. observables_handler. Qed.

Lemma observables_onSexp t n (i : Interpreter R) :
  observables (snd (onSexp t n i)) = observables i.
Proof. unfold onSexp. observables_handler. Qed.

Lemma observables_onDuplicate (i : Interpreter R) :
  observables (snd (onDuplicate i)) = observables i.
Proof. unfold onDuplicate. observables_handler. Qed.

Lemma observables_onTag t n (i : Interpreter R) :
  observables (snd (onTag t n i)) = observables i.
Proof. unfold onTag. observables_handler. Qed.

Lemma observables_onCallLString (i : Interpreter R) :
  observables (snd (onCallLString i)) = observables i.
Proof. unfold onCallLString. observables_handler. Qed.

Lemma observables_onLoadAccumulator a k (i : Interpreter R) :
  observables (snd (onLoadAccumulator a k i)) = observables i.
Proof. unfold onLoadAccumulator. observables_handler. Qed.

Lemma observables_onClosure bytes a args (i : Interpreter R) :
  observables (snd (onClosure bytes a args i)) = observables i.
Proof. unfold onClosure. observables_handler. Qed.

Lemma observables_onPattern p (i : Interpreter R) :
  observables (snd (onPattern p i)) = observables i.
Proof. unfold onPattern. observables_handler. Qed.

Lemma observables_onArray n (i : Interpreter R) :
  observables (snd (onArray n i)) = observables i.
Proof. unfold onArray. observables_handler. Qed.

Lemma observables_onSwap (i : Interpreter R) :
  observables (snd (onSwap i)) = observables i.
Proof. unfold onSwap. observables_handler. Qed.

Lemma observables_onFail (i : Interpreter R) :
  observables (snd (onFail i)) = observables i.
Proof. unfold onFail. observables_handler. Qed.

(** The four handlers that change one of the observables keep the
    others. *)

Lemma onCallLWrite_registers (i : Interpreter R) :
  registers (stack (snd (onCallLWrite i))) = registers (stack i).
Proof. unfold onCallLWrite. observables_handler. Qed.

Lemma onCallLWrite_isClosure (i : Interpreter R) :
  isClosure (snd (onCallLWrite i)) = isClosure i.
Proof. unfold onCallLWrite. observables_handler. Qed.

Lemma onCallLWrite_cout (i : Interpreter R) :
  cout (snd (onCallLWrite i))
  = if enoughToPop 1 (stack i) then cout i ++ [UNBOX (top (stack i))] else cout i.
Proof.
  unfold onCallLWrite. destruct (enoughToPop 1 (stack i)); cbn [negb]; [| reflexivity].
  unfold top. simpl_state. unfold word_size. rewrite Z.mul_1_r. reflexivity.
Qed.

Lemma onCallClosure_registers a n (i : Interpreter R) :
  registers (stack (snd (onCallClosure a n i))) = registers (stack i).
Proof. unfold onCallClosure. observables_handler. Qed.

Lemma onCallClosure_cout a n (i : Interpreter R) :
  cout (snd (onCallClosure a n i)) = cout i.
Proof. unfold onCallClosure. observables_handler. Qed.

Lemma onCallClosure_isClosure a n (i : Interpreter R) target :
  fst (onCallClosure a n i) = Some target -> isClosure (snd (onCallClosure a n i)) = true.
Proof.
  unfold onCallClosure. destruct (enoughToPush 1 (stack i)); cbn [negb fst snd].
  - reflexivity.
  - discriminate.
Qed.

Lemma onBegin_layout c a l (i : Interpreter R) :
  layout (stack (snd (onBegin c a l i))) = layout (stack i).
Proof. unfold onBegin. observables_handler. Qed.

Lemma onBegin_isClosure c a l (i : Interpreter R) :
  isClosure (snd (onBegin c a l i)) = isClosure i.
Proof. unfold onBegin. observables_handler. Qed.

Lemma onBegin_cout c a l (i : Interpreter R) :
  cout (snd (onBegin c a l i)) = cout i.
Proof. unfold onBegin. observables_handler. Qed.

Lemma onEndOrRet_layout (i : Interpreter R) :
  layout (stack (snd (onEndOrRet i))) = layout (stack i).
Proof. unfold onEndOrRet. observables_handler. Qed.

Lemma onEndOrRet_cout (i : Interpreter R) :
  cout (snd (onEndOrRet i)) = cout i.
Proof. unfold onEndOrRet. observables_handler. Qed.

End Observables.

#[global] Hint Resolve observables_registers observables_isClosure observables_cout
  registers_frame registers_layout
  observables_onCallLRead observables_onLine observables_onStore observables_onDrop
  observables_onLoad observables_onBinOp observables_onConst observables_onJump
  observables_onCondJump observables_onCall observables_onString
  observables_onCallLLength observables_onElem observables_onSTA
  observables_onCallBArray observables_onSexp observables_onDuplicate
  observables_onTag observables_onCallLString observables_onLoadAccumulator
  observables_onClosure observables_onPattern observables_onArray observables_onSwap
  observables_onFail
  onCallLWrite_registers onCallLWrite_isClosure
  onCallClosure_registers onCallClosure_cout
  onBegin_layout onBegin_isClosure onBegin_cout
  onEndOrRet_layout onEndOrRet_cout onEndOrRet_isClosure : observables.

(** The paths of one decoded instruction. *)
Ltac instruction_cases :=
  cbv beta iota zeta;
  unfold getNextInt, getNextUnsigned, closureArray, returned, checkEnoughBytes_failed,
    trySetAddr_failed;
  cbv beta iota zeta;
  repeat match goal with
    | |- context [enoughBytes ?k ?bb] => destruct (enoughBytes k bb); cbn [negb]
    | |- context [match getNextString ?bb with _ => _ end] =>
        destruct (getNextString bb) as [[? |] ?]
    | |- context [match trySetAddress ?a ?bb with _ => _ end] =>
        destruct (trySetAddress a bb) as [[|] ?]; cbn [negb]
    | |- context [match ?x with _ => _ end] =>
        lazymatch type of x with
        | prod _ _ => rewrite (surjective_pairing x); cbv beta iota zeta
        | _ => let E := fresh "E" in destruct x eqn:E
        end
    end.

(** The same, down to the interpreter that each path returns. *)
Ltac instruction_paths :=
  instruction_cases;
  try discriminate;
  let H := fresh in intros H; injection H as ? _ <-.

Ltac kept_by_handler :=
  simpl_state; first [ reflexivity | solve [eauto 6 with observables] ].

Ltac excluded_or H tac :=
  first [ exfalso; apply H; cbn; tauto | clear H; tac ].

(** X15. An instruction that only pops and pushes leaves the registers
    of the stack alone.  The handlers of [SEXP], [STA], the stores,
    [CLOSURE] and [CALL Barray] store through a pointer of their own,
    and [BEGIN], [CBEGIN], [END] and [RET] build and leave a frame; the
    handler of every other opcode writes, if anything, to the four slots
    around the top.  When these are slots of the array, a step on such
    an opcode that returns leaves [innerData], [begin], [globalsSize],
    [bp], [nArgs] and [nLocals] as they were, whatever its result. *)
Theorem stack_registers_footprint
        (R : Type) (RT : Runtime R) (b b' : Bytefile) (i i' : Interpreter R)
        (r : InterpretResult) :
  around_top_in_array (stack i) ->
  interpretOne b i = Some (r, b', i') ->
  ~ In (read_u8 (ram b) (ip b))
       [0x12; 0x14; 0x16; 0x17; 0x40; 0x41; 0x42; 0x43; 0x52; 0x53; 0x54; 0x74] ->
  layout (stack i') = layout (stack i) /\
  frame_registers (stack i') = frame_registers (stack i).
Proof.
  intros _ Hstep Hcode. revert Hstep. unfold interpretOne.
  destruct (enoughBytes 1 b); cbn [negb].
  2:{ unfold checkEnoughBytes_failed. intros H. injection H as _ _ <-.
      split; reflexivity. }
  unfold getNextCode. cbv beta iota zeta. cbn [ram ip set_prevIP].
  fold (after_opcode b). generalize (after_opcode b). intros b1.
  pose proof (read_u8_range (ram b) (ip b)) as Hc. revert Hc Hcode.
  generalize (read_u8 (ram b) (ip b)). intros c Hc Hcode.
  destruct c as [| p | p]; [ | | lia].
  2: do 8 (try (destruct p as [p | p |])).
  all: try lia.
  all: try (exfalso; apply Hcode; cbn; tauto).
  all: clear Hc Hcode.
  all: instruction_paths.
  all: split; kept_by_handler.
Qed.

Lemma stack_registers_footprint_witness :
  frame_registers (stack (snd (onDrop example_add_interpreter)))
  = frame_registers (stack example_add_interpreter).
Proof.
  destruct (stack_registers_footprint unit _
              (bytefile_of_code (fun _ => 0) [0x18])
              (after_opcode (bytefile_of_code (fun _ => 0) [0x18]))
              example_add_interpreter
              (snd (onDrop example_add_interpreter))
              (fst (onDrop example_add_interpreter))) as [_ H].
  - in_array_example.
  - reflexivity.
  - vm_compute. intros Hc. decompose [or] Hc; try discriminate; assumption.
  - exact H.
Defined.

(** X16. Only [CALL Lwrite] writes to the standard output.  After a
    step that fetched its opcode and returned, the output is the one
    before the step, except that [CALL Lwrite] on a stack with a value
    has appended the unboxed top of the stack. *)
Theorem only_lwrite_prints
        (R : Type) (RT : Runtime R) (b b' : Bytefile) (i i' : Interpreter R)
        (r : InterpretResult) :
  enoughBytes 1 b = true ->
  interpretOne b i = Some (r, b', i') ->
  cout i'
  = if (read_u8 (ram b) (ip b) =? 0x71) && enoughToPop 1 (stack i)
    then cout i ++ [UNBOX (top (stack i))]
    else cout i.
Proof.
  intros Hen. unfold interpretOne. rewrite Hen. cbn [negb].
  unfold getNextCode. cbv beta iota zeta. cbn [ram ip set_prevIP].
  fold (after_opcode b). generalize (after_opcode b). intros b1.
  pose proof (read_u8_range (ram b) (ip b)) as Hc. revert Hc.
  generalize (read_u8 (ram b) (ip b)). intros c Hc.
  destruct c as [| p | p]; [ | | lia].
  2: do 8 (try (destruct p as [p | p |])).
  all: try lia.
  all: clear Hc.
  all: cbn [Z.eqb Pos.eqb andb].
  all: instruction_paths.
  all: first [ kept_by_handler
             | rewrite onCallLWrite_cout;
               match goal with E : enoughToPop _ _ = _ |- _ => rewrite E end;
               reflexivity ].
Qed.

Lemma only_lwrite_prints_witness :
  cout (snd (onCallLWrite example_add_interpreter)) = [4].
Proof.
  rewrite (only_lwrite_prints unit _
             (bytefile_of_code (fun _ => 0) [0x71])
             (after_opcode (bytefile_of_code (fun _ => 0) [0x71]))
             example_add_interpreter
             (snd (onCallLWrite example_add_interpreter))
             (fst (onCallLWrite example_add_interpreter))).
  - vm_compute. reflexivity.
  - vm_compute. reflexivity.
  - reflexivity.
Defined.

(** X17. The closure flag is set by [CALLC] and cleared by [END] and
    [RET], and an instruction that only pops and pushes leaves it alone.
    After a step that fetched its opcode and returned: the flag is off
    when the opcode was [END] or [RET]; it is on when the opcode was
    [CALLC] and the step continues; and it is what it was when the four
    slots around the top are slots of the array and the opcode is none
    of these three nor one of [SEXP], [STA], the stores, [BEGIN],
    [CBEGIN], [CLOSURE] and [CALL Barray], whose handlers write
    elsewhere. *)
Theorem closure_flag_footprint
        (R : Type) (RT : Runtime R) (b b' : Bytefile) (i i' : Interpreter R)
        (r : InterpretResult) :
  enoughBytes 1 b = true ->
  interpretOne b i = Some (r, b', i') ->
  (In (read_u8 (ram b) (ip b)) [0x16; 0x17] -> isClosure i' = false) /\
  (read_u8 (ram b) (ip b) = 0x55 -> r = CONTINUE -> isClosure i' = true) /\
  (around_top_in_array (stack i) ->
   ~ In (read_u8 (ram b) (ip b))
        [0x12; 0x14; 0x16; 0x17; 0x40; 0x41; 0x42; 0x43; 0x52; 0x53; 0x54; 0x55; 0x74] ->
   isClosure i' = isClosure i).
Proof.
  intros Hen. unfold interpretOne. rewrite Hen. cbn [negb].
  unfold getNextCode. cbv beta iota zeta. cbn [ram ip set_prevIP].
  fold (after_opcode b). generalize (after_opcode b). intros b1.
  pose proof (read_u8_range (ram b) (ip b)) as Hc. revert Hc.
  generalize (read_u8 (ram b) (ip b)). intros c Hc.
  destruct c as [| p | p]; [ | | lia].
  2: do 8 (try (destruct p as [p | p |])).
  all: try lia.
  all: clear Hc.
  all: instruction_paths.
  all: split;
    [ intros [Hin | [Hin | []]]; try discriminate Hin; kept_by_handler
    | split;
      [ intros Hcode; try discriminate Hcode; intros Hr;
        first [ congruence | eapply onCallClosure_isClosure; eassumption ]
      | intros _ Hin; excluded_or Hin kept_by_handler ] ].
Qed.

Lemma closure_flag_footprint_witness :
  isClosure (snd (onEndOrRet (set_isClosure true example_nested_interpreter))) = false.
Proof.
  destruct (closure_flag_footprint unit _
              (bytefile_of_code (fun _ => 0) [0x16])
              (set_ip (fst (onEndOrRet (set_isClosure true example_nested_interpreter)))
                      (after_opcode (bytefile_of_code (fun _ => 0) [0x16])))
              (set_isClosure true example_nested_interpreter)
              (snd (onEndOrRet (set_isClosure true example_nested_interpreter)))
              (if fst (onEndOrRet (set_isClosure true example_nested_interpreter)) =? 0
               then STOP else CONTINUE)) as [H _].
  - vm_compute. reflexivity.
  - apply interpretOne_END; [| left]; vm_compute; reflexivity.
  - apply H. left. vm_compute. reflexivity.
Defined.

(** ** Stack underflow *)

Lemma enoughToPop_none (n : Z) (s : Stack) :
  enoughToPop 1 s = false -> 1 <= n -> enoughToPop n s = false.
Proof.
  unfold enoughToPop. intros H Hn. apply Z.leb_gt in H. apply Z.leb_gt. lia.
Qed.

(** X18. Stack underflow is reported before anything is popped.  With
    an empty value stack, a step on any opcode whose handler takes an
    operand from the stack returns [ERROR], leaves the stack and the
    standard output as they were and writes a diagnostic. *)
Theorem underflow_is_reported
        (R : Type) (RT : Runtime R) (b : Bytefile) (i : Interpreter R) :
  enoughToPop 1 (stack i) = false ->
  In (read_u8 (ram b) (ip b)) popping_opcodes ->
  exists b' i',
    interpretOne b i = Some (ERROR, b', i') /\
    stack i' = stack i /\ cout i' = cout i /\ cerr i' <> cerr i.
Proof.
  intros H1 Hin.
  pose proof (enoughToPop_none 2 _ H1 ltac:(lia)) as H2.
  pose proof (enoughToPop_none 3 _ H1 ltac:(lia)) as H3.
  unfold interpretOne.
  destruct (enoughBytes 1 b); cbn [negb].
  2:{ unfold checkEnoughBytes_failed. do 2 eexists.
      split; [reflexivity |]. simpl_state. repeat split.
      intros Hc. apply (f_equal (@List.length chunk)) in Hc.
      rewrite length_app in Hc. cbn in Hc. lia. }
  unfold getNextCode. cbv beta iota zeta. cbn [ram ip set_prevIP].
  fold (after_opcode b). generalize (after_opcode b). intros b1.
  unfold popping_opcodes in Hin.
  repeat (destruct Hin as [Hin | Hin]; [rewrite <- Hin; clear Hin |]);
    [.. | destruct Hin].
  all: cbv beta iota zeta.
  all: unfold getNextUnsigned, returned, checkEnoughBytes_failed,
         onBinOp, onSTA, onDrop, onDuplicate, onSwap, onElem, onStore, onCondJump,
         onTag, onArray, onFail, onPattern, onCallLWrite, onCallLLength, onCallLString.
  all: rewrite ?H1, ?H2, ?H3; cbn [negb]; cbv beta iota zeta.
  all: repeat match goal with
         | |- context [enoughBytes ?k ?bb] => destruct (enoughBytes k bb); cbn [negb]
         | |- context [match getNextString ?bb with _ => _ end] =>
             destruct (getNextString bb) as [[? |] ?]
         end.
  all: cbv beta iota zeta; rewrite ?H1; cbn [negb fst snd].
  all: do 2 eexists; (split; [reflexivity |]); simpl_state; repeat split.
  all: intros Hc; apply (f_equal (@List.length chunk)) in Hc;
         rewrite length_app in Hc; cbn in Hc; lia.
Qed.

Lemma underflow_is_reported_witness :
  exists b' i',
    interpretOne (bytefile_of_code (fun _ => 0) [0x18]) example_empty_interpreter
    = Some (ERROR, b', i') /\
    stack i' = stack example_empty_interpreter.
Proof.
  destruct (underflow_is_reported unit _ (bytefile_of_code (fun _ => 0) [0x18])
                                  example_empty_interpreter)
    as (b' & i' & H1 & H2 & _).
  - vm_compute. reflexivity.
  - vm_compute. tauto.
  - exists b', i'. split; assumption.
Defined.

(** X19. [PATT =str] checks for one operand and pops two.  On a stack
    that holds exactly one value and has a first global, in a slot of
    the array, the handler continues: its second operand is the word in
    the slot of that global, the result of [Bstring_patt] is written to
    that slot, and the stack is left without a value. *)
Theorem patt_str_pops_past_begin
        (R : Type) (RT : Runtime R) (i : Interpreter R) (p : Z) :
  holds 1 (stack i) ->
  1 <= globalsSize (stack i) ->
  in_array (stack i) p ->
  getReference 0 Global (stack i) = Some p ->
  fst (onPattern PatternType.Str i) = CONTINUE /\
  holds 0 (stack (snd (onPattern PatternType.Str i))) /\
  mem (stack (snd (onPattern PatternType.Str i))) p
  = to_u32 (fst (fst (Bstring_patt (top (stack i)) (mem (stack i) p)
                                   (runtime i) (mem (stack i))))).
Proof.
  intros Hholds _ _ Href.
  assert (Hpop : enoughToPop 1 (stack i) = true).
  { unfold enoughToPop. rewrite (holds_depth 1 _ Hholds). reflexivity. }
  destruct Hholds as [_ Htop].
  unfold getReference in Href. cbn [Z.eqb Global] in Href.
  destruct (globalsSize (stack i) <? 0); [discriminate |].
  injection Href as <-.
  unfold onPattern. rewrite Hpop. cbn [negb Z.eqb PatternType.Str].
  unfold ipop, pop, rt, top. simpl_state.
  replace (gc_stack_top (stack i) + word_size + word_size)
    with (begin (stack i) + word_size * 1 + word_size * 0)
    by (unfold word_size in *; lia).
  replace (gc_stack_top (stack i) + word_size * 1)
    with (gc_stack_top (stack i) + word_size)
    by (unfold word_size in *; lia).
  destruct (Bstring_patt _ _ _ _) as [[res r'] m'].
  simpl_state. split; [reflexivity |]. split.
  - unfold holds. simpl_state. unfold word_size in *. lia.
  - apply store_same.
Qed.

Lemma patt_str_pops_past_begin_witness :
  holds 0 (stack (snd (onPattern PatternType.Str example_one_value_interpreter))).
Proof.
  destruct (patt_str_pops_past_begin unit _ example_one_value_interpreter 465532)
    as (_ & H & _).
  - unfold holds. split; [lia | vm_compute; reflexivity].
  - vm_compute. discriminate.
  - in_array_example.
  - reflexivity.
  - exact H.
Defined.

(** ** Jumps and calls *)

(** X20. [JMP l] with its operand in the bytecode: when [l] is below
    the bytecode size the step continues at offset [l]; otherwise it
    returns [ERROR] with the instruction pointer after the operand.  The
    interpreter is unchanged in both cases: a failed jump writes no
    diagnostic. *)
Theorem jump_step
        (R : Type) (RT : Runtime R) (b : Bytefile) (i : Interpreter R) :
  enoughBytes 1 b = true ->
  read_u8 (ram b) (ip b) = 0x15 ->
  enoughBytes 4 (after_opcode b) = true ->
  let target := read_u32 (ram b) (ip b + 1) in
  exists b',
    interpretOne b i
    = Some (if target <? size (bytecode b) then CONTINUE else ERROR, b', i) /\
    ip b' = (if target <? size (bytecode b) then data (bytecode b) + target
             else ip b + 1 + 4) /\
    bytecode b' = bytecode b.
Proof.
  intros Henough Hcode Hoperand target.
  unfold after_opcode in Hoperand.
  decode Henough Hcode. rewrite Hoperand. cbn [negb].
  unfold getNextUnsigned, onJump, trySetAddress. cbv beta iota zeta. simpl_state.
  fold target. rewrite Z.leb_antisym.
  destruct (target <? size (bytecode b)); cbn [negb];
    eexists; (split; [reflexivity |]); simpl_state; split; reflexivity.
Qed.

Lemma jump_step_witness :
  exists b',
    interpretOne (bytefile_of_code (fun _ => 0) [0x15; 6; 0; 0; 0; 0x18; 0x16])
                 example_cjmp_interpreter
    = Some (CONTINUE, b', example_cjmp_interpreter) /\
    ip b' = 4096 + 6.
Proof.
  destruct (jump_step unit _
              (bytefile_of_code (fun _ => 0) [0x15; 6; 0; 0; 0; 0x18; 0x16])
              example_cjmp_interpreter) as (b' & H1 & H2 & _).
  - vm_compute. reflexivity.
  - vm_compute. reflexivity.
  - vm_compute. reflexivity.
  - exists b'. split; [exact H1 | exact H2].
Defined.

(** X21. [CALL l n] with its operands in the bytecode and room on the
    stack pushes the address of the next instruction, whether or not
    the call succeeds.  The step continues, at offset [l] and without a
    diagnostic, exactly when [l] is below the bytecode size and the
    opcode there is [BEGIN]; otherwise it returns [ERROR]. *)
Theorem call_step
        (R : Type) (RT : Runtime R) (b : Bytefile) (i : Interpreter R) :
  enoughBytes 1 b = true ->
  read_u8 (ram b) (ip b) = 0x56 ->
  enoughBytes (4 * 2) (after_opcode b) = true ->
  enoughToPush 1 (stack i) = true ->
  let location := read_u32 (ram b) (ip b + 1) in
  let entered :=
    (location <? size (bytecode b))
    && (read_u8 (ram b) (data (bytecode b) + location) =? 0x52) in
  exists b' i',
    interpretOne b i = Some (if entered then CONTINUE else ERROR, b', i') /\
    stack i' = push (ip b + 1 + 4 + 4) (stack i) /\
    (location < size (bytecode b) -> ip b' = data (bytecode b) + location) /\
    (entered = true -> cerr i' = cerr i).
Proof.
  intros Henough Hcode Hoperand Hroom location entered.
  assert (Hloc : to_u32 location = location).
  { apply to_u32_small. apply read_u32_range. }
  unfold after_opcode in Hoperand.
  decode Henough Hcode. rewrite Hoperand. cbn [negb].
  unfold getNextUnsigned, onCall. cbv beta iota zeta. simpl_state.
  rewrite Hroom. cbn [negb]. fold location. rewrite Hloc.
  unfold trySetAddress, peekNextCode. simpl_state.
  subst entered. rewrite Z.leb_antisym.
  destruct (location <? size (bytecode b)) eqn:Hlt; cbn [negb andb].
  - simpl_state.
    destruct (read_u8 (ram b) (data (bytecode b) + location) =? 82);
      cbn [negb]; do 2 eexists; (split; [reflexivity |]); simpl_state;
      (split; [reflexivity |]); split; try reflexivity; discriminate.
  - unfold trySetAddr_failed. do 2 eexists. split; [reflexivity |]. simpl_state.
    split; [reflexivity |]. split; [| discriminate].
    apply Z.ltb_ge in Hlt. lia.
Qed.

Lemma call_step_witness :
  exists b' i',
    interpretOne (bytefile_of_code (fun _ => 0) example_call_code) example_cjmp_interpreter
    = Some (CONTINUE, b', i') /\
    ip b' = 4096 + 9 /\
    top (stack i') = 4096 + 9.
Proof.
  destruct (call_step unit _ (bytefile_of_code (fun _ => 0) example_call_code)
                      example_cjmp_interpreter) as (b' & i' & H1 & H2 & H3 & _).
  - vm_compute. reflexivity.
  - vm_compute. reflexivity.
  - vm_compute. reflexivity.
  - vm_compute. reflexivity.
  - exists b', i'. split; [exact H1 |]. split.
    + apply H3. vm_compute. reflexivity.
    + rewrite H2. apply top_push.
Defined.

(** X22. [END] or [RET] on a stack too shallow for the epilogue ends the
    program as a normal end does: the step returns [STOP], not [ERROR],
    and changes neither the stack nor the output, and it writes no
    diagnostic. *)
Theorem end_on_shallow_stack_stops
        (R : Type) (RT : Runtime R) (b : Bytefile) (i : Interpreter R) :
  enoughBytes 1 b = true ->
  read_u8 (ram b) (ip b) = 0x16 \/ read_u8 (ram b) (ip b) = 0x17 ->
  enoughToPop (satAdd (5 + (if isClosure i then 1 else 0)) (nArgs (stack i)))
              (stack i) = false ->
  exists b' i',
    interpretOne b i = Some (STOP, b', i') /\
    stack i' = stack i /\ cout i' = cout i /\ cerr i' = cerr i.
Proof.
  intros Henough Hcode Hguard.
  rewrite (interpretOne_END b i Henough Hcode).
  unfold onEndOrRet, epilogue. cbv zeta. rewrite Hguard. cbn [negb].
  destruct (negb (bp (stack i) =? stackBegin (stack i) - word_size * 1));
    cbn [fst snd Z.eqb]; do 2 eexists; (split; [reflexivity |]);
    destruct i; repeat split.
Qed.

Lemma end_on_shallow_stack_stops_witness :
  exists b' i',
    interpretOne (bytefile_of_code (fun _ => 0) [0x16])
                 (Interpreter_new 65536 (fun _ => 0) tt 1)
    = Some (STOP, b', i') /\
    stack i' = stack (Interpreter_new 65536 (fun _ => 0) tt 1).
Proof.
  destruct (end_on_shallow_stack_stops unit _ (bytefile_of_code (fun _ => 0) [0x16])
                                       (Interpreter_new 65536 (fun _ => 0) tt 1))
    as (b' & i' & H1 & H2 & _).
  - vm_compute. reflexivity.
  - left. vm_compute. reflexivity.
  - vm_compute. reflexivity.
  - exists b', i'. split; assumption.
Defined.

(** ** Variables of a frame *)

Lemma getReference_Local (index : Z) (s : Stack) (p : Z) :
  getReference index Local s = Some p ->
  index < nLocals s /\ p = bp s - word_size * 1 - word_size * index.
Proof.
  unfold getReference. cbn [Z.eqb Local Global Pos.eqb].
  destruct (nLocals s <=? index) eqn:E; [discriminate |].
  apply Z.leb_gt in E. split; [exact E | congruence].
Qed.

Lemma getReference_Argument (index : Z) (s : Stack) (p : Z) :
  getReference index Argument s = Some p ->
  index < nArgs s /\
  p = bp s + word_size * 3 + word_size * nArgs s - word_size * index.
Proof.
  unfold getReference. cbn [Z.eqb Argument Local Global Pos.eqb].
  destruct (nArgs s <=? index) eqn:E; [discriminate |].
  apply Z.leb_gt in E. split; [exact E | congruence].
Qed.

(** X23. A store to a local or an argument touches nothing else of the
    frame.  When [onStore] succeeds for a local or an argument whose
    slot is a slot of the array, every other local and argument keeps
    its slot and its value, the four words of the frame header (saved
    base pointer, saved counts and return address) keep theirs, and the
    frame registers and the top of the stack are unchanged. *)
Theorem store_keeps_other_cells
        (R : Type) (RT : Runtime R) (i : Interpreter R) (index kind p : Z) :
  kind = Local \/ kind = Argument ->
  0 <= index ->
  getReference index kind (stack i) = Some p ->
  in_array (stack i) p ->
  fst (onStore index kind i) = CONTINUE ->
  let s' := stack (snd (onStore index kind i)) in
  (forall index' kind' q,
      kind' = Local \/ kind' = Argument ->
      0 <= index' ->
      (kind', index') <> (kind, index) ->
      getReference index' kind' (stack i) = Some q ->
      getReference index' kind' s' = Some q /\ mem s' q = mem (stack i) q) /\
  (forall k, 0 <= k <= 3 ->
             mem s' (bp (stack i) + word_size * k)
             = mem (stack i) (bp (stack i) + word_size * k)) /\
  frame_registers s' = frame_registers (stack i) /\
  gc_stack_top s' = gc_stack_top (stack i).
Proof.
  intros Hkind Hindex _ _ Hstore s'. subst s'. unfold onStore in *.
  destruct (enoughToPop 1 (stack i)); cbn [negb fst] in *; [| discriminate].
  destruct (getReference index kind (stack i)) as [res |] eqn:Href;
    cbn [fst snd] in *; [| discriminate].
  unfold poke. cbn [stack set_stack].
  split; [| split; [| split; reflexivity]].
  - intros index' kind' q Hkind' Hindex' Hother Href'.
    rewrite getReference_set_mem
      by (destruct Hkind' as [-> | ->]; discriminate).
    split; [exact Href' |]. simpl_state.
    apply store_other.
    destruct Hkind as [-> | ->], Hkind' as [-> | ->];
      repeat match goal with
             | H : getReference _ Local _ = Some _ |- _ =>
                 apply getReference_Local in H; destruct H as [? ->]
             | H : getReference _ Argument _ = Some _ |- _ =>
                 apply getReference_Argument in H; destruct H as [? ->]
             end;
      unfold word_size; try lia;
      intros Heq; apply Hother; f_equal; lia.
  - intros k Hk. simpl_state. apply store_other.
    destruct Hkind as [-> | ->];
      [ apply getReference_Local in Href | apply getReference_Argument in Href ];
      destruct Href as [? ->]; unfold word_size; lia.
Qed.

Lemma store_keeps_other_cells_witness :
  mem (stack (snd (onStore 1 Local example_frame_interpreter)))
      (bp (stack example_frame_interpreter) - word_size * 1 - word_size * 0)
  = mem (stack example_frame_interpreter)
        (bp (stack example_frame_interpreter) - word_size * 1 - word_size * 0).
Proof.
  destruct (store_keeps_other_cells unit _ example_frame_interpreter 1 Local
              (bp (stack example_frame_interpreter) - word_size * 1 - word_size * 1))
    as [H _].
  - left. reflexivity.
  - lia.
  - vm_compute. reflexivity.
  - in_array_example.
  - vm_compute. reflexivity.
  - destruct (H 0 Local
                (bp (stack example_frame_interpreter) - word_size * 1 - word_size * 0))
      as [_ H'].
    + left. reflexivity.
    + lia.
    + discriminate.
    + vm_compute. reflexivity.
    + exact H'.
Defined.

Lemma getReference_Global (index : Z) (s : Stack) (p : Z) :
  getReference index Global s = Some p ->
  index <= globalsSize s /\ p = begin s + word_size * 1 + word_size * index.
Proof.
  unfold getReference. cbn [Z.eqb Global].
  destruct (globalsSize s <? index) eqn:E; [discriminate |].
  apply Z.ltb_ge in E. split; [exact E | congruence].
Qed.

(** X24. The globals of a fresh stack lie inside its array.  For a
    stack constructed for [g] globals, [g] not above the capacity, the
    reference of the global [index < g] is a slot of the array, above
    the first slot of the value stack; it is the slot [g - index] words
    before the end of the array. *)
Theorem globals_inside_array (array : Z) (m : Mem) (g index p : Z) :
  0 <= index < g ->
  g <= MAX_STACK_SIZE ->
  getReference index Global (Stack_new array m g) = Some p ->
  in_array (Stack_new array m g) p /\
  begin (Stack_new array m g) < p /\
  p = array + word_size * MAX_STACK_SIZE - word_size * (g - index).
Proof.
  intros Hindex Hg Href. apply getReference_Global in Href.
  destruct Href as [_ ->].
  unfold in_array, Stack_new. simpl_state.
  unfold word_size, MAX_STACK_SIZE in *. lia.
Qed.

Lemma globals_inside_array_witness :
  in_array (Stack_new 65536 (fun _ => 0) 3) (65536 + 4 * 100000 - 4 * 2).
Proof.
  destruct (globals_inside_array 65536 (fun _ => 0) 3 1 (65536 + 4 * 100000 - 4 * 2))
    as [H _].
  - lia.
  - unfold MAX_STACK_SIZE. lia.
  - reflexivity.
  - exact H.
Defined.

(** ** Steps that end the process *)

Lemma onBinOp_traps (R : Type) (RT : Runtime R) (operation : Z) (i : Interpreter R) :
  1 <= operation <= 13 ->
  (onBinOp operation i = None <->
   (operation = BinOp.DIV \/ operation = BinOp.REM) /\
   enoughToPop 2 (stack i) = true /\ UNBOX (top (stack i)) = 0).
Proof.
  intros Hop. unfold onBinOp, top.
  destruct (enoughToPop 2 (stack i)); cbn [negb].
  2:{ split; [discriminate | intros (_ & H & _); discriminate]. }
  unfold ipop, pop. cbv beta iota zeta. simpl_state.
  replace (gc_stack_top (stack i) + word_size * 1)
    with (gc_stack_top (stack i) + word_size) by (unfold word_size; lia).
  set (rhs := UNBOX (mem (stack i) (gc_stack_top (stack i) + word_size))).
  set (lhs := UNBOX _).
  assert (Hcases : operation = 1 \/ operation = 2 \/ operation = 3 \/ operation = 4 \/
                   operation = 5 \/ operation = 6 \/ operation = 7 \/ operation = 8 \/
                   operation = 9 \/ operation = 10 \/ operation = 11 \/
                   operation = 12 \/ operation = 13) by lia.
  unfold BinOp.DIV, BinOp.REM.
  decompose [or] Hcases; subst operation; unfold binop;
    cbn [Z.eqb Pos.eqb BinOp.ADD BinOp.SUB BinOp.MUL BinOp.DIV BinOp.REM BinOp.LT
         BinOp.LE BinOp.GT BinOp.GE BinOp.EQ BinOp.NE BinOp.AND BinOp.OR];
    try (split; [discriminate | intros ([H | H] & _); discriminate]).
  all: destruct (rhs =? 0) eqn:E;
    [ apply Z.eqb_eq in E | apply Z.eqb_neq in E ];
    (split; [ intros H; try discriminate; auto | intros (_ & _ & H); try reflexivity; contradiction ]).
Qed.

(** X25. Where a step ends the process.  With the instruction pointer
    inside the bytecode and the opcode fetched: [STI] ends the process;
    and a binary operator ends it exactly when it is the division or the
    remainder on a stack with two values whose top, the divisor, unboxes
    to zero.  Every other step on a binary operator returns a result. *)
Theorem binop_traps_exactly
        (R : Type) (RT : Runtime R) (b : Bytefile) (i : Interpreter R) :
  ip_in_buffer b ->
  enoughBytes 1 b = true ->
  (read_u8 (ram b) (ip b) = 0x13 -> interpretOne b i = None) /\
  (1 <= read_u8 (ram b) (ip b) <= 13 ->
   (interpretOne b i = None <->
    (read_u8 (ram b) (ip b) = 0x04 \/ read_u8 (ram b) (ip b) = 0x05) /\
    enoughToPop 2 (stack i) = true /\ UNBOX (top (stack i)) = 0)).
Proof.
  intros _ Henough. split.
  - intros Hcode. decode Henough Hcode. reflexivity.
  - intros Hop.
    rewrite (interpretOne_BINOP b i _ Henough eq_refl Hop).
    rewrite <- (onBinOp_traps R RT _ i Hop).
    destruct (onBinOp (read_u8 (ram b) (ip b)) i); unfold returned;
      split; congruence.
Qed.

Lemma binop_traps_exactly_witness :
  interpretOne (bytefile_of_code (fun _ => 0) [0x04]) example_cjmp_interpreter = None.
Proof.
  destruct (binop_traps_exactly unit _ (bytefile_of_code (fun _ => 0) [0x04])
                                example_cjmp_interpreter) as [_ H].
  - unfold ip_in_buffer. cbn. lia.
  - vm_compute. reflexivity.
  - apply H.
    + vm_compute. split; discriminate.
    + split; [left; vm_compute; reflexivity |].
      split; vm_compute; reflexivity.
Defined.

(** ** Arrays and closures *)

Lemma pop_into_effect
      (R : Type) (RT : Runtime R) (n : nat) (contents : Z) (i : Interpreter R) :
  contents + word_size * Z.of_nat n <= gc_stack_top (stack i) + word_size \/
  gc_stack_top (stack i) + word_size * Z.of_nat n < contents ->
  gc_stack_top (stack (pop_into contents n i))
  = gc_stack_top (stack i) + word_size * Z.of_nat n /\
  (forall k, 0 <= k < Z.of_nat n ->
             mem (stack (pop_into contents n i)) (contents + word_size * k)
             = mem (stack i) (gc_stack_top (stack i) + word_size * (Z.of_nat n - k))) /\
  (forall a, a < contents \/ contents + word_size * Z.of_nat n <= a ->
             mem (stack (pop_into contents n i)) a = mem (stack i) a).
Proof.
  revert i. induction n as [| n IH]; intros i Hsep.
  - cbn [pop_into]. split; [unfold word_size; cbn; lia |].
    split; [intros k Hk; cbn in Hk; lia | reflexivity].
  - cbn [pop_into]. unfold ipop, pop. cbv beta iota zeta.
    rewrite Nat2Z.inj_succ in *.
    match goal with
    | |- context [pop_into contents n ?j] =>
        destruct (IH j) as (Htop & Helem & Hout);
          [clear IH; simpl_state; unfold word_size in *; lia |]; clear IH
    end.
    simpl_state in Htop. simpl_state in Helem. simpl_state in Hout. simpl_state.
    split; [rewrite Htop; unfold word_size; lia |]. split.
    + intros k Hk. destruct (Z.eq_dec k (Z.of_nat n)) as [-> | Hne].
      * rewrite Hout by (unfold word_size; lia).
        rewrite store_same. f_equal. unfold word_size. lia.
      * rewrite Helem by lia.
        rewrite store_other by (unfold word_size in *; lia).
        f_equal. unfold word_size. lia.
    + intros a Ha. rewrite Hout by (unfold word_size in *; lia).
      apply store_other. unfold word_size in *. lia.
Qed.

(** X26. The elements of an array are in push order.  When
    [onCallBArray(n)] runs on a stack with [n] values and the cells of
    the allocated array do not overlap the slots of those values, it
    continues, element [k] of the array is the word that lay in the
    slot of the value pushed as number [k], and the [n] values are
    replaced on the stack by the pointer to the array contents. *)
Theorem array_elements_in_push_order
        (R : Type) (RT : Runtime R) (i : Interpreter R) (n : Z)
        (bArray : Z) (r1 : R) (m1 : Mem) :
  0 <= n ->
  enoughToPop n (stack i) = true ->
  alloc_array (to_i32 n) (runtime i) (mem (stack i)) = (bArray, r1, m1) ->
  bArray + data_contents + word_size * n <= gc_stack_top (stack i) + word_size \/
  gc_stack_top (stack i) + word_size * n < bArray + data_contents ->
  fst (onCallBArray n i) = CONTINUE /\
  gc_stack_top (stack (snd (onCallBArray n i)))
  = gc_stack_top (stack i) + word_size * n - word_size /\
  top (stack (snd (onCallBArray n i))) = bArray + data_contents /\
  (forall k, 0 <= k < n ->
             mem (stack (snd (onCallBArray n i))) (bArray + data_contents + word_size * k)
             = m1 (gc_stack_top (stack i) + word_size * (n - k))).
Proof.
  intros Hn Hpop Halloc Hsep. unfold onCallBArray, rt.
  rewrite Hpop, Halloc. cbn [negb fst snd].
  match goal with
  | |- context [pop_into ?c ?k ?j] =>
      destruct (pop_into_effect R RT k c j) as (Htop & Helem & Hout);
        [ simpl_state; rewrite Z2Nat.id by lia; exact Hsep |]
  end.
  rewrite Z2Nat.id in * by lia. simpl_state in Htop. simpl_state in Helem.
  split; [reflexivity |]. unfold top. simpl_state.
  split; [rewrite Htop; unfold word_size; lia |]. split.
  - apply store_eq. unfold word_size. lia.
  - intros k Hk. rewrite store_other by (rewrite Htop; unfold word_size in *; lia).
    apply Helem. exact Hk.
Qed.

Lemma array_elements_in_push_order_witness :
  mem (stack (snd (onCallBArray 2 example_heap_interpreter)))
      (8388608 + data_contents + word_size * 0)
  = to_usize (BOX 3).
Proof.
  destruct (array_elements_in_push_order Z _ example_heap_interpreter 2
              8388608 (8388608 + 8 + word_size * 2)
              (mem (stack example_heap_interpreter))) as (_ & _ & _ & H).
  - lia.
  - vm_compute. reflexivity.
  - reflexivity.
  - right. vm_compute. reflexivity.
  - rewrite H by lia. vm_compute. reflexivity.
Defined.


Lemma capture_effect
      (R : Type) (RT : Runtime R) (bytes : Z -> Z) (n : nat) (arg slot : Z)
      (i : Interpreter R) :
  gc_stack_top (stack (snd (capture bytes arg slot n i))) = gc_stack_top (stack i) /\
  (forall a, a < slot -> mem (stack (snd (capture bytes arg slot n i))) a = mem (stack i) a).
Proof.
  revert arg slot i. induction n as [| n IH]; intros arg slot i.
  - split; reflexivity.
  - cbn [capture]. destruct (getReference _ _ _) as [res |]; [| split; reflexivity].
    destruct (IH (arg + 5) (slot + word_size)
                 (poke slot (to_u32 (mem (stack i) res)) i)) as [Htop Hmem].
    split; [exact Htop |].
    intros a Ha. rewrite Hmem by (unfold word_size; lia).
    simpl_state. apply store_other. lia.
Qed.

Lemma push_all_below (vs : list Z) (s : Stack) (a : Z) :
  a < gc_stack_top s - word_size * Z.of_nat (List.length vs) + word_size ->
  mem (push_all vs s) a = mem s a.
Proof.
  revert s. induction vs as [| v vs IH]; intros s Ha.
  - reflexivity.
  - cbn [push_all fold_left]. fold (push_all vs (push v s)).
    cbn [List.length] in Ha. rewrite Nat2Z.inj_succ in Ha.
    rewrite IH by (simpl_state; unfold word_size in *; lia).
    simpl_state. apply store_other. unfold word_size in *. lia.
Qed.

(** X27. A closure is called at the address it was built with.  When
    [onClosure(address, args)] has allocated a closure and continues,
    the value it pushes points to the closure contents; and once the
    caller has pushed any arguments on top of it,
    [closureRelativeAddr] for that many arguments, which is where
    [onCallClosure] jumps, is [address].  The closure cell is assumed
    to lie outside the stack slots that are written. *)
Theorem closure_entry_round_trip
        (R : Type) (RT : Runtime R) (bytes : Z -> Z) (address : Z) (args : span)
        (i : Interpreter R) (vs : list Z) (closure : Z) (r1 : R) (m1 : Mem) :
  enoughToPush 1 (stack i) = true ->
  alloc_closure (to_i32 (to_usize (size args + 1))) (runtime i) (mem (stack i))
  = (closure, r1, m1) ->
  closure <> 0 ->
  fst (onClosure bytes address args i) = CONTINUE ->
  0 <= address < 2 ^ 32 ->
  0 <= closure + data_contents < 2 ^ 32 ->
  closure + data_contents
  < gc_stack_top (stack i) - word_size * Z.of_nat (List.length vs) \/
  gc_stack_top (stack i) < closure + data_contents ->
  top (stack (snd (onClosure bytes address args i))) = closure + data_contents /\
  gc_stack_top (stack (snd (onClosure bytes address args i)))
  = gc_stack_top (stack i) - word_size /\
  closureRelativeAddr (Z.of_nat (List.length vs))
                      (push_all vs (stack (snd (onClosure bytes address args i))))
  = address.
Proof.
  intros Hroom Halloc Hnull Hok Haddress Hvalue Hsep.
  unfold onClosure, rt in *. rewrite Hroom, Halloc in *. cbn [negb] in *.
  apply Z.eqb_neq in Hnull. rewrite Hnull in *.
  match goal with
  | |- context [capture ?b ?a ?s ?n ?j] =>
      destruct (capture_effect R RT b n a s j) as [Htop Hmem];
      destruct (capture b a s n j) as [ok i2]
  end.
  cbn [snd] in Htop, Hmem. simpl_state in Htop.
  destruct ok; cbn [negb fst snd] in *; [| discriminate].
  assert (Hentry : mem (stack i2) (closure + data_contents) = address).
  { rewrite Hmem by (unfold word_size; lia). simpl_state. apply store_same. }
  rewrite (to_u32_small (closure + data_contents)) by lia.
  split; [apply top_push |]. simpl_state. split; [rewrite Htop; reflexivity |].
  unfold closureRelativeAddr.
  destruct (push_all_registers vs (push (closure + data_contents) (stack i2)))
    as (Hpt & _).
  rewrite Hpt. simpl_state. rewrite Htop.
  replace (gc_stack_top (stack i) - word_size
           - word_size * Z.of_nat (List.length vs) + word_size * 1
           + word_size * Z.of_nat (List.length vs))
    with (gc_stack_top (stack i)) by (unfold word_size; lia).
  rewrite (push_all_above vs _ (gc_stack_top (stack i)))
    by (simpl_state; rewrite Htop; unfold word_size; lia).
  simpl_state. rewrite Htop, store_same.
  destruct Hsep as [Hbelow | Habove].
  - rewrite push_all_below by (simpl_state; rewrite Htop; unfold word_size in *; lia).
    simpl_state. rewrite store_other by (rewrite Htop; unfold word_size in *; lia).
    rewrite Hentry. apply to_u32_small. exact Haddress.
  - rewrite push_all_above by (simpl_state; rewrite Htop; unfold word_size in *; lia).
    simpl_state. rewrite store_other by (rewrite Htop; lia).
    rewrite Hentry. apply to_u32_small. exact Haddress.
Qed.

Lemma closure_entry_round_trip_witness :
  closureRelativeAddr 1
    (push_all [15]
       (stack (snd (onClosure (fun _ => 0) 9 (mkSpan 4096 0) example_heap_interpreter))))
  = 9.
Proof.
  destruct (closure_entry_round_trip Z _ (fun _ => 0) 9 (mkSpan 4096 0)
              example_heap_interpreter [15]
              8388608 (8388608 + 8 + word_size * 1)
              (mem (stack example_heap_interpreter))) as (_ & _ & H).
  - vm_compute. reflexivity.
  - reflexivity.
  - discriminate.
  - vm_compute. reflexivity.
  - lia.
  - cbn. lia.
  - right. vm_compute. reflexivity.
  - exact H.
Defined.


Lemma capture_values
      (R : Type) (RT : Runtime R) (bytes : Z -> Z) (n : nat) (arg slot : Z)
      (i : Interpreter R) :
  (forall k, 0 <= k < Z.of_nat n -> read_u8 bytes (arg + 5 * k) <> Captured) ->
  (forall k res, 0 <= k < Z.of_nat n ->
                 getReference (read_u32 bytes (arg + 5 * k + 1))
                              (read_u8 bytes (arg + 5 * k)) (stack i) = Some res ->
                 res < slot \/ slot + word_size * Z.of_nat n <= res) ->
  fst (capture bytes arg slot n i) = true ->
  forall k, 0 <= k < Z.of_nat n ->
            exists res,
              getReference (read_u32 bytes (arg + 5 * k + 1))
                           (read_u8 bytes (arg + 5 * k)) (stack i) = Some res /\
              mem (stack (snd (capture bytes arg slot n i))) (slot + word_size * k)
              = to_u32 (mem (stack i) res).
Proof.
  revert arg slot i. induction n as [| n IH]; intros arg slot i Hkind Hsep Hok k Hk.
  - cbn in Hk. lia.
  - rewrite Nat2Z.inj_succ in *. cbn [capture] in *.
    pose proof (Hkind 0 ltac:(lia)) as Hkind0.
    pose proof (fun res => Hsep 0 res ltac:(lia)) as Hsep0.
    replace (arg + 5 * 0) with arg in * by lia.
    destruct (getReference (read_u32 bytes (arg + 1)) (read_u8 bytes arg) (stack i))
      as [res0 |] eqn:Href0; [| discriminate].
    specialize (Hsep0 res0 eq_refl).
    set (i1 := poke slot (to_u32 (mem (stack i) res0)) i) in *.
    assert (Hsame : forall j, 0 <= j < Z.of_nat n ->
                getReference (read_u32 bytes (arg + 5 + 5 * j + 1))
                             (read_u8 bytes (arg + 5 + 5 * j)) (stack i1)
                = getReference (read_u32 bytes (arg + 5 * (j + 1) + 1))
                               (read_u8 bytes (arg + 5 * (j + 1))) (stack i)).
    { intros j Hj. replace (arg + 5 + 5 * j) with (arg + 5 * (j + 1)) by lia.
      subst i1. unfold poke. cbn [stack set_stack].
      apply getReference_set_mem. apply Hkind. lia. }
    destruct (Z.eq_dec k 0) as [-> | Hne].
    + exists res0. replace (arg + 5 * 0) with arg by lia. split; [exact Href0 |].
      destruct (capture_effect R RT bytes n (arg + 5) (slot + word_size) i1) as [_ Hmem].
      rewrite Hmem by (unfold word_size; lia).
      subst i1. simpl_state. apply store_eq. unfold word_size. lia.
    + destruct (IH (arg + 5) (slot + word_size) i1) with (k := k - 1)
        as (res & Href & Hval).
      * intros j Hj. replace (arg + 5 + 5 * j) with (arg + 5 * (j + 1)) by lia.
        apply Hkind. lia.
      * intros j res Hj Href. rewrite (Hsame j Hj) in Href.
        apply Hsep in Href; [| lia]. unfold word_size in *. lia.
      * exact Hok.
      * lia.
      * rewrite (Hsame (k - 1)) in Href by lia.
        replace (k - 1 + 1) with k in Href by lia.
        exists res. split; [exact Href |].
        replace (slot + word_size * k) with (slot + word_size + word_size * (k - 1))
          by (unfold word_size; lia).
        rewrite Hval. subst i1. simpl_state.
        apply Hsep in Href; [| lia].
        rewrite store_other by (unfold word_size in *; lia). reflexivity.
Qed.

(** X28. A closure holds the values of the variables it captures.
    When [onClosure] has allocated a closure and continues, the
    descriptors name globals, locals or arguments, and the closure
    cells overlap neither the slots of those variables nor the slot
    that receives the closure, then the cell [k + 1] of the closure
    contents holds the value that the variable of descriptor [k] had
    after the allocation. *)
Theorem closure_captures_values
        (R : Type) (RT : Runtime R) (bytes : Z -> Z) (address : Z) (args : span)
        (i : Interpreter R) (closure : Z) (r1 : R) (m1 : Mem) :
  enoughToPush 1 (stack i) = true ->
  alloc_closure (to_i32 (to_usize (size args + 1))) (runtime i) (mem (stack i))
  = (closure, r1, m1) ->
  closure <> 0 ->
  0 <= size args ->
  (forall k, 0 <= k < size args -> read_u8 bytes (data args + 5 * k) <> Captured) ->
  (forall k res, 0 <= k < size args ->
                 getReference (read_u32 bytes (data args + 5 * k + 1))
                              (read_u8 bytes (data args + 5 * k)) (stack i) = Some res ->
                 res < closure + data_contents \/
                 closure + data_contents + word_size + word_size * size args <= res) ->
  gc_stack_top (stack i) < closure + data_contents \/
  closure + data_contents + word_size + word_size * size args
  <= gc_stack_top (stack i) ->
  fst (onClosure bytes address args i) = CONTINUE ->
  forall k, 0 <= k < size args ->
            exists res,
              getReference (read_u32 bytes (data args + 5 * k + 1))
                           (read_u8 bytes (data args + 5 * k)) (stack i) = Some res /\
              mem (stack (snd (onClosure bytes address args i)))
                  (closure + data_contents + word_size * 1 + word_size * k)
              = to_u32 (m1 res).
Proof.
  intros Hroom Halloc Hnull Hsize Hkind Hsep Htopsep Hok k Hk.
  unfold onClosure, rt in *. rewrite Hroom, Halloc in *. cbn [negb] in *.
  apply Z.eqb_neq in Hnull. rewrite Hnull in *.
  match goal with
  | |- context [capture ?b ?a ?s ?n ?j] =>
      pose proof (capture_values R RT b n a s j) as Hval;
      assert (Hrefs : forall index kind,
                 kind <> Captured ->
                 getReference index kind (stack j) = getReference index kind (stack i))
        by (intros; unfold poke; cbn [stack set_stack];
            rewrite !getReference_set_mem by assumption; reflexivity);
      assert (Hmem : forall cell, cell <> closure + data_contents -> mem (stack j) cell = m1 cell)
        by (intros; simpl_state; apply store_other; assumption);
      destruct (capture_effect R RT b n a s j) as [Htop _];
      set (i1 := j) in *;
      destruct (capture b a s n i1) as [ok i2]
  end.
  rewrite Z2Nat.id in Hval by lia.
  cbn [fst snd] in Hval, Htop.
  assert (Htop1 : gc_stack_top (stack i1) = gc_stack_top (stack i)) by reflexivity.
  rewrite Htop1 in Htop. clearbody i1.
  destruct ok; cbn [negb fst snd] in *; [| discriminate].
  destruct (Hval Hkind) with (k := k) as (res & Href & Hcell).
  - intros j res Hj Href.
    rewrite Hrefs in Href by (apply Hkind; exact Hj).
    apply Hsep in Href; [| exact Hj]. unfold word_size in *. lia.
  - reflexivity.
  - exact Hk.
  - rewrite Hrefs in Href by (apply Hkind; exact Hk).
    exists res. split; [exact Href |].
    simpl_state. rewrite Htop.
    rewrite store_other by (unfold word_size in *; lia).
    replace (closure + data_contents + word_size * 1 + word_size * k)
      with (closure + data_contents + word_size * 1 + word_size * k) by reflexivity.
    rewrite Hcell. apply Hsep in Href; [| exact Hk].
    rewrite Hmem by (unfold word_size in *; lia). reflexivity.
Qed.

Lemma closure_captures_values_witness :
  mem (stack (snd (onClosure example_captures 9 (mkSpan 4096 1) example_heap_interpreter)))
      (8388608 + data_contents + word_size * 1 + word_size * 0)
  = to_usize (BOX 0).
Proof.
  destruct (closure_captures_values Z _ example_captures 9 (mkSpan 4096 1)
              example_heap_interpreter
              8388608 (8388608 + 8 + word_size * 2)
              (mem (stack example_heap_interpreter))) with (k := 0)
    as (res & Href & H).
  - vm_compute. reflexivity.
  - reflexivity.
  - discriminate.
  - cbn. lia.
  - intros k Hk. cbn [size] in Hk. replace k with 0 by lia. vm_compute. discriminate.
  - intros k res Hk Href. cbn [size] in Hk. replace k with 0 in Href by lia.
    vm_compute in Href. injection Href as <-. left. vm_compute. reflexivity.
  - left. vm_compute. reflexivity.
  - vm_compute. reflexivity.
  - cbn. lia.
  - rewrite H. vm_compute in Href. injection Href as <-. vm_compute. reflexivity.
Defined.


(** X29. A callee finds captured variables in the closure it was
    called through.  When a caller has pushed a closure value, then the
    arguments and the return address, all in the array, and the callee's
    prologue for that many arguments has run and its frame fits the
    array, [getReference(index, Captured)] is the cell [index + 1] of
    what the closure value points to, and [onLoad] pushes the word of
    that cell. *)
Theorem captured_variables_in_closure
        (R : Type) (RT : Runtime R) (i : Interpreter R) (s : Stack)
        (closureValue : Z) (args : list Z) (returnAddress : Z)
        (c : bool) (l index : Z) :
  0 <= l ->
  in_array s (gc_stack_top s) ->
  frame_fits l (push returnAddress (push_all args (push closureValue s))) ->
  prologue c (Z.of_nat (List.length args)) l
           (push returnAddress (push_all args (push closureValue s)))
  = (true, stack i) ->
  enoughToPush 1 (stack i) = true ->
  getReference index Captured (stack i)
  = Some (closureValue + word_size * 1 + word_size * index) /\
  fst (onLoad index Captured i) = CONTINUE /\
  top (stack (snd (onLoad index Captured i)))
  = mem (stack i) (closureValue + word_size * 1 + word_size * index).
Proof.
  intros Hl0 _ Hfits Hpro Hroom.
  pose proof (frame_fits_bound _ _ Hfits) as Hl1.
  assert (Hl : 0 <= l < 2 ^ 32 - 1) by lia.
  clear Hl0 Hl1 Hfits.
  destruct (push_all_registers args (push closureValue s)) as (Htop & _).
  simpl_state in Htop.
  assert (Hguard : enoughToPush (satAdd 4 l)
                     (push returnAddress (push_all args (push closureValue s))) = true).
  { unfold prologue in Hpro.
    destruct (enoughToPush (satAdd 4 l) _); [reflexivity | discriminate]. }
  rewrite (prologue_eq _ _ _ _ Hguard) in Hpro.
  apply (f_equal snd) in Hpro. cbn [snd] in Hpro. rename Hpro into Hs.
  assert (Hcell : mem (stack i) (bp (stack i) + word_size * 3
                                 + word_size * nArgs (stack i) + word_size * 1)
                  = closureValue).
  { rewrite <- Hs. simpl_state. rewrite Htop.
    rewrite (to_u32_small (l + 1)) by lia.
    mem_read.
    rewrite push_all_above by (simpl_state; unfold word_size; lia).
    simpl_state. apply store_eq. unfold word_size. lia. }
  assert (Href : getReference index Captured (stack i)
                 = Some (closureValue + word_size * 1 + word_size * index)).
  { unfold getReference.
    change (Captured =? Global) with false. change (Captured =? Local) with false.
    change (Captured =? Argument) with false. change (Captured =? Captured) with true.
    cbv iota. rewrite Hcell. reflexivity. }
  split; [exact Href |].
  unfold onLoad. rewrite Href, Hroom. cbn [negb fst snd]. simpl_state.
  split; [reflexivity |]. apply top_push.
Qed.

Lemma captured_variables_in_closure_witness :
  getReference 2 Captured (stack example_closure_callee)
  = Some (8388616 + word_size * 1 + word_size * 2).
Proof.
  destruct (captured_variables_in_closure unit _ example_closure_callee
              (Stack_new 65536 (fun _ => 0) 1) 8388616 [15] 4105 false 0 2)
    as (H & _).
  - lia.
  - in_array_example.
  - in_array_example.
  - apply pair_with_true. vm_compute. reflexivity.
  - vm_compute. reflexivity.
  - exact H.
Defined.
